(** * The file registry of k6's experimental [fs] module

    A shallow embedding of [js/modules/k6/experimental/fs/registry.go]:
    the [registry] type, a read-through cache of file contents keyed by
    cleaned path, and its only operation [open].

    The registry's [sync.Map] is a finite map from strings to values of type
    [any]; the filesystem ([afero.Fs]) and the files it hands out are the
    collaborators of [open], modelled by what one call of [open] observes of
    them.  Every call that [open] makes on a collaborator is recorded in a trace
    of events, so that statements about the performed I/O can be made. *)

From stdpp Require Import gmap strings list.
From Stdlib.Strings Require Byte.
From Stdlib.Strings Require Import Ascii.

(** ** Values *)

(** [[]byte]: a sequence of bytes.  Go's [nil] slice is the empty sequence. *)
Definition bytes : Type := list Init.Byte.byte.

(** A non-nil value of Go's [error] interface: the sentinel [io.EOF], or any
    other error, told apart by its message.  A Go result of type [error] is an
    [option error], [None] being [nil]. *)
Inductive error : Type :=
| EOF
| Err (msg : string).

(** What a [sync.Map] stores: values of type [any].  Besides byte slices the
    model has values of two other dynamic types and the nil interface, which
    is all that the type assertion [f.([]byte)] can tell apart. *)
Inductive any : Type :=
| AnyBytes (data : bytes)
| AnyString (s : string)
| AnyError (e : error)
| AnyNil.

(** ** The registry *)

(** [type registry struct { openedFiles sync.Map }].  Keys are the files'
    paths; the zero value of the struct holds the empty map. *)
Record registry : Type := mkRegistry { openedFiles : gmap string any }.

Definition empty_registry : registry := mkRegistry ∅.

(** [sync.Map.Load] and [sync.Map.Store] on the registry's map. *)
Definition Load (fr : registry) (key : string) : option any :=
  openedFiles fr !! key.

Definition Store (fr : registry) (key : string) (value : any) : registry :=
  mkRegistry (<[key := value]> (openedFiles fr)).

(** ** The filesystem and its files *)

(** A file, as far as reading it goes: the results [(n bytes, err)] of the
    successive calls of [Read], in order.  Once the list is used up the file is
    at its end, where [Read] returns no byte and [io.EOF]. *)
Definition File : Type := list (bytes * option error).

(** [afero.Fs], restricted to the one method that [open] calls: opening a
    name gives an error or a file. *)
Record Fs : Type := mkFs { Open : string -> error + File }.

(** The calls made on the filesystem and on its files.  [EvOpen name ok] is a
    call of [Fs.Open] and whether it gave a file, [EvRead name] a call of
    [Read] and [EvClose name] a call of [Close] on the file opened as
    [name]. *)
Inductive event : Type :=
| EvOpen (name : string) (ok : bool)
| EvRead (name : string)
| EvClose (name : string).

Global Instance byte_eq_dec : EqDecision Init.Byte.byte :=
  Strings.Byte.byte_eq_dec.

Global Instance error_eq_dec : EqDecision error.
Proof. solve_decision. Defined.

Global Instance any_eq_dec : EqDecision any.
Proof. solve_decision. Defined.

Global Instance event_eq_dec : EqDecision event.
Proof. solve_decision. Defined.

(** Modelled from the spec: [io.ReadAll] belongs to Go's standard library,
    not to this repository; it is the spec's [readAll], which drains a
    readable stream fully into memory and fails on an I/O failure.  As in the library,
    [Read] is called until it reports an error and what each call delivers is
    appended to [b]; [io.EOF] is the regular end and is turned into [nil].
    The third component counts the calls of [Read]. *)
Fixpoint ReadAll_loop (r : File) (b : bytes) (calls : nat)
  : bytes * option error * nat :=
  match r with
  | [] => (b, None, S calls)
  | (chunk, None) :: r' => ReadAll_loop r' (b ++ chunk) (S calls)
  | (chunk, Some EOF) :: _ => (b ++ chunk, None, S calls)
  | (chunk, Some err) :: _ => (b ++ chunk, Some err, S calls)
  end.

(** Modelled from the spec: [io.ReadAll(r)], the loop above started on an
    empty buffer. *)
Definition ReadAll (r : File) : bytes * option error * nat :=
  ReadAll_loop r [] 0.

(** ** [filepath.Clean] *)

Module filepath.

(** [os.PathSeparator] and [os.IsPathSeparator] of the Unix build. *)
Definition Separator : ascii := "/"%char.

Definition IsPathSeparator (c : ascii) : bool := Ascii.eqb c Separator.

Definition is_dot (c : ascii) : bool := Ascii.eqb c "."%char.

(** [lazybuf]: the output buffer of [Clean].  As long as what is written
    agrees with the path read, [buf] stays [nil] ([None]) and the output is
    the prefix of [path] of length [w]. *)
Record lazybuf : Type := mkLazybuf {
  path : list ascii;
  buf : option (list ascii);
  w : nat
}.

Definition index (b : lazybuf) (i : nat) : ascii :=
  match buf b with
  | Some bs => nth i bs zero
  | None => nth i (path b) zero
  end.

(** [append]; an index out of range of [buf], where Go panics, does not occur:
    [Clean] writes no more bytes than it has read. *)
Definition append (b : lazybuf) (c : ascii) : lazybuf :=
  match buf b with
  | None =>
      if (w b <? length (path b)) && Ascii.eqb (nth (w b) (path b) zero) c
      then mkLazybuf (path b) None (S (w b))
      else
        let bs := take (w b) (path b)
                    ++ replicate (length (path b) - w b) zero in
        mkLazybuf (path b) (Some (<[w b := c]> bs)) (S (w b))
  | Some bs => mkLazybuf (path b) (Some (<[w b := c]> bs)) (S (w b))
  end.

Definition to_string (b : lazybuf) : list ascii :=
  match buf b with
  | None => take (w b) (path b)
  | Some bs => take (w b) bs
  end.

Definition set_w (b : lazybuf) (w' : nat) : lazybuf :=
  mkLazybuf (path b) (buf b) w'.

(** The backtracking of a [..] element, after the first [out.w--]:
    [for out.w > dotdot && !os.IsPathSeparator(out.index(out.w)) { out.w-- }]. *)
Fixpoint backtrack (fuel : nat) (out : lazybuf) (dotdot : nat) : lazybuf :=
  match fuel with
  | 0 => out
  | S fuel' =>
      if (dotdot <? w out) && negb (IsPathSeparator (index out (w out)))
      then backtrack fuel' (set_w out (w out - 1)) dotdot
      else out
  end.

(** Is the read position at the end of the path or at a separator? *)
Definition at_end_or_sep (rest : list ascii) : bool :=
  match rest with
  | [] => true
  | c :: _ => IsPathSeparator c
  end.

(** Modelled from the spec: the main loop of [filepath.Clean] (see [Clean]
    below), [for r < n { switch ... } ]; [rest] is [path[r:]], the part of the
    path still to read. *)
Fixpoint clean_loop (rooted : bool) (rest : list ascii) (out : lazybuf)
    (dotdot : nat) {struct rest} : lazybuf :=
  match rest with
  | [] => out
  | c :: rest1 =>
      if IsPathSeparator c then
        (* empty path element *)
        clean_loop rooted rest1 out dotdot
      else if is_dot c && at_end_or_sep rest1 then
        (* . element *)
        clean_loop rooted rest1 out dotdot
      else if is_dot c && is_dot (hd zero rest1) && at_end_or_sep (tl rest1) then
        (* .. element: remove to last separator *)
        match rest1 with
        | [] => out
        | _ :: rest2 =>
            if dotdot <? w out then
              (* can backtrack *)
              let out := set_w out (w out - 1) in
              clean_loop rooted rest2 (backtrack (w out) out dotdot) dotdot
            else if negb rooted then
              (* cannot backtrack, but not rooted, so append .. element *)
              let out := if 0 <? w out then append out Separator else out in
              let out := append (append out ".") "." in
              clean_loop rooted rest2 out (w out)
            else clean_loop rooted rest2 out dotdot
        end
      else
        (* real path element: add slash if needed, then copy the element *)
        let out :=
          if (rooted && negb (w out =? 1)) || (negb rooted && negb (w out =? 0))
          then append out Separator else out in
        (fix copy (l : list ascii) (out : lazybuf) {struct l} : lazybuf :=
           match l with
           | [] => out
           | c' :: l' =>
               if IsPathSeparator c' then clean_loop rooted l out dotdot
               else copy l' (append out c')
           end) rest1 (append out c)
  end.

(** Modelled from the spec: [filepath.Clean] belongs to Go's standard
    library, not to this repository.  The spec's standard path-cleaning rules, which
    resolve redundant separators and [.] and [..] segments, are the rules of
    that function, whose algorithm is followed here for the Unix build: there
    is no volume name ([volLen] is 0) and [FromSlash] is the identity. *)
Definition Clean (p : string) : string :=
  let originalPath := p in
  let path := String.list_ascii_of_string p in
  match path with
  | [] => originalPath +:+ "."
  | c0 :: path1 =>
      let rooted := IsPathSeparator c0 in
      let out := mkLazybuf path None 0 in
      let out := if rooted then append out Separator else out in
      let out :=
        if rooted then clean_loop rooted path1 out 1
        else clean_loop rooted path out 0 in
      (* Turn empty string into "." *)
      let out := if w out =? 0 then append out "." else out in
      String.string_of_list_ascii (to_string out)
  end.

End filepath.

(** ** [registry.open] *)

(** How a call of [open] ends: it returns [(data, err)], or it panics with a
    value. *)
Inductive outcome : Type :=
| Return (data : bytes) (err : option error)
| Panic (v : error).

Global Instance outcome_eq_dec : EqDecision outcome.
Proof. solve_decision. Defined.

(** [fmt.Errorf("registry's file %s is not stored as a byte slice", filename)] *)
Definition not_a_byte_slice (filename : string) : error :=
  Err ("registry's file " +:+ filename +:+ " is not stored as a byte slice").

(** The calls that [fromFs.Open(filename)] followed by [io.ReadAll(f)] make
    when the file is opened and [Read] is called [calls] times. *)
Definition read_through_io (filename : string) (calls : nat) : list event :=
  EvOpen filename true :: replicate calls (EvRead filename).

(** [func (fr *registry) open(filename string, fromFs afero.Fs) ([]byte, error)].
    The result is how the call ends, the registry after the call and the calls
    made on the filesystem, in order. *)
Definition open (fr : registry) (filename : string) (fromFs : Fs)
  : outcome * registry * list event :=
  let filename := filepath.Clean filename in
  match Load fr filename with
  | Some f =>
      match f with
      | AnyBytes data => (Return data None, fr, [])
      | _ => (Panic (not_a_byte_slice filename), fr, [])
      end
  | None =>
      match Open fromFs filename with
      | inl err => (Return [] (Some err), fr, [EvOpen filename false])
      | inr f =>
          match ReadAll f with
          | (_, Some err, calls) =>
              (Return [] (Some err), fr, read_through_io filename calls)
          | (data, None, calls) =>
              (Return data None, Store fr filename (AnyBytes data),
               read_through_io filename calls)
          end
      end
  end.

(** ** Serial use of a registry *)

(** The calls [open(filename, fromFs)] of [calls], one after the other on the
    same registry: how each call ended with the I/O it made, and the registry
    in the end.  Each call comes with the filesystem as it is at that call. *)
Fixpoint serial (fr : registry) (calls : list (string * Fs))
  : list (outcome * list event) * registry :=
  match calls with
  | [] => ([], fr)
  | (filename, fromFs) :: calls' =>
      let '(out, fr', io) := open fr filename fromFs in
      let '(outs, fr'') := serial fr' calls' in
      ((out, io) :: outs, fr'')
  end.

Definition registry_after (fr : registry) (calls : list (string * Fs))
  : registry :=
  (serial fr calls).2.

(** All the I/O of a serial run, in order. *)
Definition serial_io (fr : registry) (calls : list (string * Fs))
  : list event :=
  concat ((serial fr calls).1.*2).

(** The registries a program can hold: the zero value, and what calls of
    [open] make of it ([openedFiles] is written nowhere else). *)
Inductive reachable : registry -> Prop :=
| reachable_zero : reachable empty_registry
| reachable_open fr filename fromFs out fr' io :
    reachable fr ->
    open fr filename fromFs = (out, fr', io) ->
    reachable fr'.

(** Every stored value is a byte slice. *)
Definition only_byte_slices (fr : registry) : Prop :=
  forall key v, Load fr key = Some v -> exists data, v = AnyBytes data.

(** The number of calls of [Fs.Open] for [name] in a trace. *)
Definition is_open_of (name : string) (e : event) : bool :=
  match e with
  | EvOpen name' _ => bool_decide (name' = name)
  | _ => false
  end.

Definition queries (name : string) (io : list event) : nat :=
  length (filter (fun e => is_open_of name e = true) io).

(** The files that a trace leaves open: opened by a successful [Fs.Open] and
    not closed by a later [Close]. *)
Fixpoint left_open (io : list event) : list string :=
  match io with
  | [] => []
  | EvOpen name true :: io' =>
      if bool_decide (EvClose name ∈ io') then left_open io'
      else name :: left_open io'
  | _ :: io' => left_open io'
  end.

(** The content that a call returned. *)
Definition returned_data (out : outcome) : option bytes :=
  match out with
  | Return data _ => Some data
  | Panic _ => None
  end.

(** The name that an event is about. *)
Definition event_name (e : event) : string :=
  match e with
  | EvOpen name _ | EvRead name | EvClose name => name
  end.

(** The ways through [open]: the cache has the content (line 52 to 58), the
    cached value is no byte slice (line 54 to 56), the file cannot be opened
    (line 61 to 64), reading it fails (line 66 to 69), it is read to its end
    and cached (line 71 to 73). *)
Inductive open_path (fr : registry) (filename : string) (fromFs : Fs)
  : outcome -> registry -> list event -> Prop :=
| path_hit data :
    Load fr (filepath.Clean filename) = Some (AnyBytes data) ->
    open_path fr filename fromFs (Return data None) fr []
| path_panic v :
    Load fr (filepath.Clean filename) = Some v ->
    (forall data, v <> AnyBytes data) ->
    open_path fr filename fromFs
      (Panic (not_a_byte_slice (filepath.Clean filename))) fr []
| path_open_failed err :
    Load fr (filepath.Clean filename) = None ->
    Open fromFs (filepath.Clean filename) = inl err ->
    open_path fr filename fromFs (Return [] (Some err)) fr
      [EvOpen (filepath.Clean filename) false]
| path_read_failed f part err calls :
    Load fr (filepath.Clean filename) = None ->
    Open fromFs (filepath.Clean filename) = inr f ->
    ReadAll f = (part, Some err, calls) ->
    open_path fr filename fromFs (Return [] (Some err)) fr
      (read_through_io (filepath.Clean filename) calls)
| path_read f data calls :
    Load fr (filepath.Clean filename) = None ->
    Open fromFs (filepath.Clean filename) = inr f ->
    ReadAll f = (data, None, calls) ->
    open_path fr filename fromFs (Return data None)
      (Store fr (filepath.Clean filename) (AnyBytes data))
      (read_through_io (filepath.Clean filename) calls).

(** ** Concurrent use of a registry *)

(** Where a goroutine that runs [open] stands.  [sync.Map] is safe for
    concurrent use: its [Load] and [Store] are atomic, so a concurrent run of
    several calls of [open] is an interleaving of their steps between these
    two accesses to the shared map.  Opening and reading the file touches
    nothing shared and is one step. *)
Inductive thread : Type :=
| AtLoad                                     (* line 52, about to Load *)
| AtOpen                                     (* line 61, after a miss *)
| AtStore (data : bytes) (io : list event)   (* line 71, about to Store *)
| Done (out : outcome) (io : list event).    (* returned or panicked *)

(** One step of a goroutine running [open(filename, fromFs)] on the shared
    registry [fr]. *)
Definition thread_step (filename : string) (fromFs : Fs) (fr : registry)
    (t : thread) : registry * thread :=
  let filename := filepath.Clean filename in
  match t with
  | AtLoad =>
      match Load fr filename with
      | Some (AnyBytes data) => (fr, Done (Return data None) [])
      | Some _ => (fr, Done (Panic (not_a_byte_slice filename)) [])
      | None => (fr, AtOpen)
      end
  | AtOpen =>
      match Open fromFs filename with
      | inl err => (fr, Done (Return [] (Some err)) [EvOpen filename false])
      | inr f =>
          match ReadAll f with
          | (_, Some err, calls) =>
              (fr, Done (Return [] (Some err))
                     (read_through_io filename calls))
          | (data, None, calls) =>
              (fr, AtStore data (read_through_io filename calls))
          end
      end
  | AtStore data io =>
      (Store fr filename (AnyBytes data), Done (Return data None) io)
  | Done out io => (fr, Done out io)
  end.

(** The shared registry and the goroutines. *)
Definition machine : Type := registry * list thread.

(** Goroutine [i] takes a step. *)
Definition machine_step (filename : string) (fromFs : Fs) (m : machine)
    (i : nat) : machine :=
  match m.2 !! i with
  | Some t =>
      let '(fr', t') := thread_step filename fromFs m.1 t in
      (fr', <[i := t']> m.2)
  | None => m
  end.

(** A schedule names the goroutine that steps next, one after the other. *)
Fixpoint run (filename : string) (fromFs : Fs) (m : machine)
    (schedule : list nat) : machine :=
  match schedule with
  | [] => m
  | i :: schedule' =>
      run filename fromFs (machine_step filename fromFs m i) schedule'
  end.

(** [n] goroutines have just called [open]. *)
Definition start (fr : registry) (n : nat) : machine :=
  (fr, replicate n AtLoad).

Definition is_done (t : thread) : bool :=
  match t with
  | Done _ _ => true
  | _ => false
  end.

Definition all_done (m : machine) : Prop :=
  Forall (fun t => is_done t = true) m.2.

(** How far a goroutine has come. *)
Definition pc (t : thread) : nat :=
  match t with
  | AtLoad => 0
  | AtOpen => 1
  | AtStore _ _ => 2
  | Done _ _ => 3
  end.

(** What the goroutines that race for a file of content [content] may hold:
    nothing yet, or this content. *)
Definition thread_agrees (content : bytes) (t : thread) : Prop :=
  match t with
  | AtLoad | AtOpen => True
  | AtStore data _ => data = content
  | Done out _ => out = Return content None
  end.

(** The invariant of the race for the uncached key [key] of [fr]: the
    registry is still [fr] and nobody has returned, or it is [fr] with the
    content stored under [key]. *)
Definition race_inv (fr : registry) (key : string) (content : bytes)
    (m : machine) : Prop :=
  Forall (thread_agrees content) m.2
  /\ ((m.1 = fr /\ Forall (fun t => is_done t = false) m.2)
      \/ m.1 = Store fr key (AnyBytes content)).

(** What a goroutine may hold in a race for a path on which [open] stores
    nothing and ends as [out]: it has not stored and is not about to, and if
    it has returned, it ended as [out]. *)
Definition settles_as (fr : registry) (key : string) (out : outcome)
    (t : thread) : Prop :=
  match t with
  | AtLoad => True
  | AtOpen => Load fr key = None
  | AtStore _ _ => False
  | Done out' _ => out' = out
  end.

(** Did this call of a serial run, which ended as [res], read the file for
    [key] to the end and cache it?  Such a call returns content with no error
    after I/O; a call served from the cache makes no I/O. *)
Definition cached_by (key : string) (call : string * Fs)
    (res : outcome * list event) : bool :=
  bool_decide (filepath.Clean call.1 = key)
  && match res with
     | (Return _ None, _ :: _) => true
     | _ => false
     end.

(** The number of calls of a serial run that read and cached the file for
    [key]. *)
Definition fills (key : string) (fr : registry)
    (calls : list (string * Fs)) : nat :=
  length (filter (fun cr => cached_by key cr.1 cr.2 = true)
            (zip calls (serial fr calls).1)).

(** ** The spec's properties P1, P2 and P4, word for word *)

(** P1 of the spec, as it is written: in [n] serial calls [open(p, source)]
    all calls after the first return the content of the first, and the source
    is asked for [p] at most once in all. *)
Definition read_once_as_stated (fr : registry) (p : string) (source : Fs)
    (n : nat) : Prop :=
  let outs := (serial fr (replicate n (p, source))).1.*1 in
  (forall i out first,
      outs !! 0 = Some first -> outs !! S i = Some out ->
      returned_data out = returned_data first)
  /\ queries (filepath.Clean p) (serial_io fr (replicate n (p, source))) <= 1.

(** P2 of the spec, as it is written: after opening one of two paths that
    clean to the same string, opening the other makes no I/O. *)
Definition same_entry_as_stated (fr : registry) (p q : string) (source : Fs)
  : Prop :=
  filepath.Clean p = filepath.Clean q ->
  (serial fr [(p, source); (q, source)]).1.*2 !! 1 = Some [].

(** P4 of the spec, as it is written: when [n] goroutines that called
    [open(p, source)] for an uncached path have all returned, they all got the
    same content and the registry has an entry for the path. *)
Definition concurrent_as_stated (fr : registry) (p : string) (source : Fs)
    (n : nat) (schedule : list nat) : Prop :=
  Load fr (filepath.Clean p) = None ->
  all_done (run p source (start fr n) schedule) ->
  (forall i j oi ioi oj ioj,
      (run p source (start fr n) schedule).2 !! i = Some (Done oi ioi) ->
      (run p source (start fr n) schedule).2 !! j = Some (Done oj ioj) ->
      returned_data oi = returned_data oj)
  /\ exists data,
       Load (run p source (start fr n) schedule).1 (filepath.Clean p)
       = Some (AnyBytes data).

(** ** [cmd/init.go]: the [k6 init] command *)

Module cmd.

(** The line feed, [\n] in Go's string literals. *)
Definition nl : string := String (ascii_of_nat 10) EmptyString.

Definition defaultNewScriptName : string := "script.js".

Definition defaultNewScript : string :=
  "import http from 'k6/http';" +:+ nl
  +:+ "import { sleep } from 'k6';" +:+ nl
  +:+ nl
  +:+ "export default function () {" +:+ nl
  +:+ "  http.get('https://grafana.com');" +:+ nl
  +:+ "  sleep(1);" +:+ nl
  +:+ "}" +:+ nl.

(** The filesystem [c.gs.FS] as one call of [run] meets it: what
    [fsext.Exists] answers for a path, whether [Create] gives a file for it
    ([None], the nil error) or fails, and whether [Write] of some bytes to the
    created file succeeds. *)
Record Fs : Type := mkFs {
  Exists : string -> bool * option error;
  Create : string -> option error;
  Write : string -> bytes -> option error
}.

(** [state.GlobalState], restricted to what [run] reads of it; its logger
    and [printToStdout], which gets the whole of it, are called through the
    calls below. *)
Record GlobalState : Type := mkGlobalState {
  FS : Fs;
  BinaryName : string
}.

(** [type initCmd struct { gs *state.GlobalState; overwriteFiles bool }] *)
Record initCmd : Type := mkInitCmd {
  gs : GlobalState;
  overwriteFiles : bool
}.

(** What [run] does to the outside, call by call: [CallCreate path ok] is a
    call of [FS.Create] and whether it gave a file; [CallPrintToStdout s] is
    a call [printToStdout(c.gs, s)].  [run] gets no result from
    [printToStdout]: whether [s] reaches the standard output is that
    function's doing and is not recorded. *)
Inductive call : Type :=
| CallExists (path : string)
| LogErrorf (msg : string)
| CallCreate (path : string) (ok : bool)
| CallWrite (path : string) (data : bytes)
| CallClose (path : string)
| CallPrintToStdout (msg : string).

Global Instance call_eq_dec : EqDecision call.
Proof. solve_decision. Defined.

(** [target] of [run]: the first argument, or the default name. *)
Definition target_of (args : list string) : string :=
  match args with
  | [] => defaultNewScriptName
  | arg0 :: _ => arg0
  end.

(** The two lines that [run] hands to [printToStdout] after writing the
    script. *)
Definition initialized_msg (target : string) : string :=
  "Initialized a new k6 test script in " +:+ target +:+ "." +:+ nl.

Definition execute_msg (binaryName target : string) : string :=
  "You can now execute it by running `" +:+ binaryName +:+ " run "
  +:+ target +:+ "`." +:+ nl.

(** [func (c *initCmd) run(cmd *cobra.Command, args []string) error]: the
    returned error and the calls made, in order.  The deferred [fd.Close()]
    is the last call of every path on which [Create] gave a file. *)
Definition run (c : initCmd) (args : list string)
  : option error * list call :=
  let target := target_of args in
  match Exists (FS (gs c)) target with
  | (_, Some err) => (Some err, [CallExists target])
  | (fileExists, None as err) =>
      if fileExists && negb (overwriteFiles c) then
        (err,
         [CallExists target; LogErrorf (target +:+ " already exists")])
      else
        match Create (FS (gs c)) target with
        | Some err => (Some err, [CallExists target; CallCreate target false])
        | None =>
            let data := String.list_byte_of_string defaultNewScript in
            match Write (FS (gs c)) target data with
            | Some err =>
                (Some err,
                 [CallExists target; CallCreate target true;
                  CallWrite target data; CallClose target])
            | None =>
                (None,
                 [CallExists target; CallCreate target true;
                  CallWrite target data;
                  CallPrintToStdout (initialized_msg target);
                  CallPrintToStdout
                    (execute_msg (BinaryName (gs c)) target);
                  CallClose target])
            end
        end
  end.

(** The path that a call is about, if any. *)
Definition call_path (e : call) : option string :=
  match e with
  | CallExists path | CallCreate path _ | CallWrite path _ | CallClose path =>
      Some path
  | LogErrorf _ | CallPrintToStdout _ => None
  end.

(** The files that a sequence of calls leaves open: created and not closed
    later. *)
Fixpoint left_open (calls : list call) : list string :=
  match calls with
  | [] => []
  | CallCreate path true :: calls' =>
      if bool_decide (CallClose path ∈ calls') then left_open calls'
      else path :: left_open calls'
  | _ :: calls' => left_open calls'
  end.

(** The strings that the calls hand to [printToStdout], in order. *)
Definition print_calls (calls : list call) : list string :=
  omap (fun e => match e with
                 | CallPrintToStdout msg => Some msg
                 | _ => None
                 end) calls.

(** A filesystem on which only [old.js] exists and everything succeeds, and
    one on which writing fails. *)
Definition sample_fs : Fs :=
  mkFs (fun path => (bool_decide (path = "old.js"), None))
       (fun _ => None) (fun _ _ => None).

Definition full_disk : Fs :=
  mkFs (fun path => (false, None))
       (fun _ => None) (fun _ _ => Some (Err "no space left on device")).

(** [k6 init] on [sample_fs], with or without [--force]. *)
Definition sample_cmd (force : bool) : initCmd :=
  mkInitCmd (mkGlobalState sample_fs "k6") force.

End cmd.

(** Membership in a list that is written out. *)
Ltac in_list :=
  unfold not; intros;
  repeat match goal with
         | H : exists _, _ |- _ => destruct H as [? H]
         | H : _ ∈ _ :: _ |- _ => apply elem_of_cons in H as [H|H]
         | H : _ ∈ [] |- _ => by apply elem_of_nil in H
         | H : @eq cmd.call _ _ |- _ => discriminate H
         | H : @eq cmd.call _ _ |- _ => injection H as ?; subst
         end;
  rewrite ?elem_of_cons; try done; auto 10.

(** ** Sample filesystems *)

Module Samples.

(** A filesystem without any file. *)
Definition no_files : Fs :=
  mkFs (fun _ => inl (Err "file does not exist")).

Definition hello : bytes := String.list_byte_of_string "hello".

(** A filesystem whose only file is [a/b]; reading it delivers [hel], then
    [lo], then the end of the file. *)
Definition one_file : Fs :=
  mkFs (fun name =>
          if bool_decide (name = "a/b")
          then inr [(String.list_byte_of_string "hel", None);
                    (String.list_byte_of_string "lo", None)]
          else inl (Err "file does not exist")).

(** The same file, but the second [Read] fails. *)
Definition bad_disk : Fs :=
  mkFs (fun name =>
          if bool_decide (name = "a/b")
          then inr [(String.list_byte_of_string "hel", None);
                    ([], Some (Err "input/output error"))]
          else inl (Err "file does not exist")).

(** A filesystem whose only file is [.], the current directory, made
    readable. *)
Definition dot_file : Fs :=
  mkFs (fun name =>
          if bool_decide (name = ".")
          then inr [(hello, Some EOF)]
          else inl (Err "file does not exist")).

(** The registry after [a/b] of [one_file] has been opened. *)
Definition cached : registry := Store empty_registry "a/b" (AnyBytes hello).

(** A registry as no program can hold it: the value of [a/b] is no byte
    slice. *)
Definition corrupt : registry :=
  Store empty_registry "a/b" (AnyString "hello").

End Samples.

(** * Properties *)

(** ** The registry's map *)

Lemma Load_Store fr key value : Load (Store fr key value) key = Some value.
Proof. unfold Load, Store; simpl. apply lookup_insert_eq. Qed.

Lemma Load_Store_ne fr key key' value :
  key <> key' -> Load (Store fr key value) key' = Load fr key'.
Proof. intros Hne. unfold Load, Store; simpl. by apply lookup_insert_ne. Qed.

Lemma Store_size fr key value :
  Load fr key = None ->
  size (openedFiles (Store fr key value)) = S (size (openedFiles fr)).
Proof. intros Hnone. unfold Store; simpl. by apply map_size_insert_None. Qed.

Lemma registry_eq fr fr' : openedFiles fr = openedFiles fr' -> fr = fr'.
Proof. destruct fr, fr'; simpl; congruence. Qed.

(** ** Path cleaning *)

(** [Clean] on entries of the table of Go's own test of [filepath.Clean], and
    on the paths of the spec. *)
Lemma Clean_table :
  map filepath.Clean
    [""; "."; ".."; "/"; "abc"; "abc/def"; "abc/"; "./"; "../../abc";
     "abc//def//ghi"; "abc/./def"; "/./abc/def"; "abc/.";
     "abc/def/ghi/../jkl"; "abc/def/../.."; "/abc/def/../../..";
     "abc/def/../../../ghi/jkl/../../../mno"; "/../abc"; "abc/./../def";
     "abc/../../././../def"; "a/b"; "a//b"; "a/./b"]
  = ["."; "."; ".."; "/"; "abc"; "abc/def"; "abc"; "."; "../../abc";
     "abc/def/ghi"; "abc/def"; "/abc/def"; "abc";
     "abc/def/jkl"; "."; "/";
     "../../mno"; "/abc"; "def";
     "../../def"; "a/b"; "a/b"; "a/b"].
Proof. reflexivity. Qed.

(** ** The four ways through [open] *)

Section OpenPaths.
Variables (fr : registry) (filename : string) (fromFs : Fs).

(** Line 52 to 58: the file is cached as a byte slice. *)
Lemma open_hit data :
  Load fr (filepath.Clean filename) = Some (AnyBytes data) ->
  open fr filename fromFs = (Return data None, fr, []).
Proof. intros Hload. unfold open. by rewrite Hload. Qed.

(** Line 54 to 56: the cached value is no byte slice. *)
Lemma open_hit_panic v :
  Load fr (filepath.Clean filename) = Some v ->
  (forall data, v <> AnyBytes data) ->
  open fr filename fromFs
  = (Panic (not_a_byte_slice (filepath.Clean filename)), fr, []).
Proof.
  intros Hload Hv. unfold open. rewrite Hload.
  destruct v; try reflexivity. by destruct (Hv data).
Qed.

(** Line 61 to 64: the file is not cached and cannot be opened. *)
Lemma open_miss_open_failed err :
  Load fr (filepath.Clean filename) = None ->
  Open fromFs (filepath.Clean filename) = inl err ->
  open fr filename fromFs
  = (Return [] (Some err), fr, [EvOpen (filepath.Clean filename) false]).
Proof. intros Hload Hopen. unfold open. by rewrite Hload, Hopen. Qed.

(** Line 66 to 69: the file is opened and reading it fails. *)
Lemma open_miss_read_failed f part err calls :
  Load fr (filepath.Clean filename) = None ->
  Open fromFs (filepath.Clean filename) = inr f ->
  ReadAll f = (part, Some err, calls) ->
  open fr filename fromFs
  = (Return [] (Some err), fr,
     read_through_io (filepath.Clean filename) calls).
Proof.
  intros Hload Hopen Hread. unfold open.
  by rewrite Hload, Hopen, Hread.
Qed.

(** Line 71 to 73: the file is opened, read to its end and cached. *)
Lemma open_miss_read f data calls :
  Load fr (filepath.Clean filename) = None ->
  Open fromFs (filepath.Clean filename) = inr f ->
  ReadAll f = (data, None, calls) ->
  open fr filename fromFs
  = (Return data None, Store fr (filepath.Clean filename) (AnyBytes data),
     read_through_io (filepath.Clean filename) calls).
Proof.
  intros Hload Hopen Hread. unfold open.
  by rewrite Hload, Hopen, Hread.
Qed.

(** Every call of [open] takes one of the ways of [open_path]. *)
Lemma open_takes_a_path out fr' io :
  open fr filename fromFs = (out, fr', io) ->
  open_path fr filename fromFs out fr' io.
Proof.
  unfold open.
  destruct (Load fr (filepath.Clean filename)) as [v|] eqn:Hload.
  - destruct v; intros [= <- <- <-];
      first (by apply path_hit);
      by eapply path_panic; [exact Hload | discriminate].
  - destruct (Open fromFs (filepath.Clean filename)) as [err|f] eqn:Hopen.
    + intros [= <- <- <-]. by apply path_open_failed.
    + destruct (ReadAll f) as [[data [err|]] calls] eqn:Hread;
        intros [= <- <- <-].
      * by eapply path_read_failed.
      * by eapply path_read.
Qed.
End OpenPaths.

(** ** What is stored *)

Lemma open_only_byte_slices fr filename fromFs out fr' io :
  open fr filename fromFs = (out, fr', io) ->
  only_byte_slices fr -> only_byte_slices fr'.
Proof.
  intros Hopen Hfr. apply open_takes_a_path in Hopen.
  destruct Hopen; try assumption.
  intros k v. destruct (decide (filepath.Clean filename = k)) as [<-|Hne].
  - rewrite Load_Store. intros [= <-]. by eexists.
  - rewrite Load_Store_ne by done. apply Hfr.
Qed.

Lemma reachable_only_byte_slices fr : reachable fr -> only_byte_slices fr.
Proof.
  induction 1 as [|fr filename fromFs out fr' io _ IH Hopen].
  - intros key v. unfold Load; simpl. by rewrite lookup_empty.
  - by eapply open_only_byte_slices.
Qed.

Lemma reachable_serial fr calls :
  reachable fr -> reachable (registry_after fr calls).
Proof.
  revert fr. induction calls as [|[filename fromFs] calls IH]; intros fr Hfr.
  - exact Hfr.
  - unfold registry_after in *. simpl.
    destruct (open fr filename fromFs) as [[out fr'] io] eqn:Hopen.
    specialize (IH fr' (reachable_open _ _ _ _ _ _ Hfr Hopen)).
    by destruct (serial fr' calls) as [outs fr''].
Qed.

(** An entry, once there, is left as it is by [open]. *)
Lemma open_keeps_entries fr filename fromFs out fr' io key v :
  open fr filename fromFs = (out, fr', io) ->
  Load fr key = Some v -> Load fr' key = Some v.
Proof.
  intros Hopen Hload. apply open_takes_a_path in Hopen.
  destruct Hopen; try assumption.
  rewrite Load_Store_ne; [done | congruence].
Qed.

(** The entries of all keys but the cleaned path are as before. *)
Lemma open_frames_other_keys fr filename fromFs out fr' io key :
  open fr filename fromFs = (out, fr', io) ->
  key <> filepath.Clean filename -> Load fr' key = Load fr key.
Proof.
  intros Hopen Hne. apply open_takes_a_path in Hopen.
  destruct Hopen; try done. by apply Load_Store_ne.
Qed.

Lemma serial_keeps_entries fr calls key v :
  Load fr key = Some v -> Load (registry_after fr calls) key = Some v.
Proof.
  revert fr. induction calls as [|[filename fromFs] calls IH]; intros fr Hload.
  - exact Hload.
  - unfold registry_after in *. simpl.
    destruct (open fr filename fromFs) as [[out fr'] io] eqn:Hopen.
    specialize (IH fr' (open_keeps_entries _ _ _ _ _ _ _ _ Hopen Hload)).
    by destruct (serial fr' calls) as [outs fr''].
Qed.

Lemma registry_after_app fr calls1 calls2 :
  registry_after fr (calls1 ++ calls2)
  = registry_after (registry_after fr calls1) calls2.
Proof.
  revert fr. induction calls1 as [|[filename fromFs] calls1 IH]; intros fr.
  - reflexivity.
  - unfold registry_after in *. simpl.
    destruct (open fr filename fromFs) as [[out fr'] io].
    specialize (IH fr').
    destruct (serial fr' calls1) as [outs1 fr1].
    destruct (serial fr' (calls1 ++ calls2)) as [outs fr2].
    exact IH.
Qed.

Lemma cached_reachable : reachable Samples.cached.
Proof.
  exact (reachable_open empty_registry "a/b" Samples.one_file
           (Return Samples.hello None) Samples.cached
           (read_through_io "a/b" 3) reachable_zero eq_refl).
Qed.

(** ** The claims about a single call *)

(** C1 (read-through): on a registry that a program can hold, for every path
    and filesystem: if the cleaned path is a key of the cache, [open] returns
    the cached content with no error, leaves the registry as it is and makes
    no call on the filesystem; if the cleaned path is no key and opening and
    reading the file succeed, [open] stores the read bytes under the cleaned
    path and returns them with no error. *)
Theorem open_read_through (fr : registry) (filename : string) (fromFs : Fs) :
  reachable fr ->
  (is_Some (Load fr (filepath.Clean filename)) ->
   exists data,
     Load fr (filepath.Clean filename) = Some (AnyBytes data)
     /\ open fr filename fromFs = (Return data None, fr, []))
  /\ (Load fr (filepath.Clean filename) = None ->
      forall f data calls,
        Open fromFs (filepath.Clean filename) = inr f ->
        ReadAll f = (data, None, calls) ->
        exists fr' io,
          open fr filename fromFs = (Return data None, fr', io)
          /\ fr' = Store fr (filepath.Clean filename) (AnyBytes data)
          /\ Load fr' (filepath.Clean filename) = Some (AnyBytes data)).
Proof.
  intros Hfr. split.
  - intros [v Hload].
    destruct (reachable_only_byte_slices fr Hfr _ _ Hload) as [data ->].
    exists data. split; [exact Hload | by apply open_hit].
  - intros Hload f data calls Hopen Hread.
    eexists _, _. split; [by eapply open_miss_read |].
    split; [reflexivity | apply Load_Store].
Qed.

Lemma open_read_through_witness :
  reachable Samples.cached
  /\ open Samples.cached "a/./b" Samples.no_files
     = (Return Samples.hello None, Samples.cached, [])
  /\ (open empty_registry "a//b" Samples.one_file).1
     = (Return Samples.hello None, Samples.cached).
Proof.
  split; [exact cached_reachable |]. split.
  - destruct (open_read_through Samples.cached "a/./b" Samples.no_files
                cached_reachable) as [Hhit _].
    destruct Hhit as (data & Hload & Hopen); [by eexists |].
    injection Hload as <-. exact Hopen.
  - destruct (open_read_through empty_registry "a//b" Samples.one_file
                reachable_zero) as [_ Hmiss].
    destruct (Hmiss eq_refl _ _ _ eq_refl eq_refl) as (fr' & io & Hopen & -> & _).
    by rewrite Hopen.
Defined.

(** C3 (failures are returned and not cached): on a miss, if the filesystem
    cannot open the cleaned path, or opens it and reading the file fails,
    [open] returns that very error with empty content, leaves the registry
    as it was and has made the calls up to the failing one.  And whenever
    [open] returns an error, the error is the one that opening or reading
    the file gave, the returned content is empty, and the registry is what it
    was before the call, without an entry for the cleaned path; so the next
    call for the path opens the file on the filesystem again, and where that
    and the reading succeed it returns and caches the read content with no
    error. *)
Theorem open_failure_not_cached (fr : registry) (filename : string)
    (fromFs : Fs) :
  (Load fr (filepath.Clean filename) = None ->
   (forall err,
       Open fromFs (filepath.Clean filename) = inl err ->
       open fr filename fromFs
       = (Return [] (Some err), fr, [EvOpen (filepath.Clean filename) false]))
   /\ (forall f part err calls,
          Open fromFs (filepath.Clean filename) = inr f ->
          ReadAll f = (part, Some err, calls) ->
          open fr filename fromFs
          = (Return [] (Some err), fr,
             read_through_io (filepath.Clean filename) calls)))
  /\ (forall data err fr' io,
         open fr filename fromFs = (Return data (Some err), fr', io) ->
         data = []
         /\ fr' = fr
         /\ Load fr' (filepath.Clean filename) = None
         /\ (Open fromFs (filepath.Clean filename) = inl err
             \/ exists f part calls,
                  Open fromFs (filepath.Clean filename) = inr f
                  /\ ReadAll f = (part, Some err, calls))
         /\ (forall fromFs' : Fs,
               exists ok io',
                 (open fr' filename fromFs').2
                 = EvOpen (filepath.Clean filename) ok :: io')
         /\ (forall (fromFs' : Fs) f content calls,
               Open fromFs' (filepath.Clean filename) = inr f ->
               ReadAll f = (content, None, calls) ->
               open fr' filename fromFs'
               = (Return content None,
                  Store fr' (filepath.Clean filename) (AnyBytes content),
                  read_through_io (filepath.Clean filename) calls))).
Proof.
  split.
  - intros Hload. split.
    + intros err Hfs. by apply open_miss_open_failed.
    + intros f part err calls Hfs Hread. by eapply open_miss_read_failed.
  - intros data err fr' io Hopen.
    assert (Hretry : Load fr (filepath.Clean filename) = None ->
      (forall fromFs' : Fs,
          exists ok io',
            (open fr filename fromFs').2
            = EvOpen (filepath.Clean filename) ok :: io')
      /\ (forall (fromFs' : Fs) f content calls,
            Open fromFs' (filepath.Clean filename) = inr f ->
            ReadAll f = (content, None, calls) ->
            open fr filename fromFs'
            = (Return content None,
               Store fr (filepath.Clean filename) (AnyBytes content),
               read_through_io (filepath.Clean filename) calls))).
    { intros Hload. split.
      - intros fromFs'. unfold open. rewrite Hload.
        destruct (Open fromFs' _) as [e|f]; [by eexists _, _ |].
        destruct (ReadAll f) as [[d [e|]] n]; by eexists _, _.
      - intros fromFs' f content calls Hfs' Hread'.
        by eapply open_miss_read. }
    apply open_takes_a_path in Hopen.
    inversion Hopen as
      [ | | err' Hload Hfs | f part err' calls Hload Hfs Hread | ]; subst.
    + destruct (Hretry Hload) as [Hquery Hgood].
      repeat split; try done. by left.
    + destruct (Hretry Hload) as [Hquery Hgood].
      repeat split; try done. right. by eexists _, _, _.
Qed.

Lemma open_failure_not_cached_witness :
  Load empty_registry (filepath.Clean "a/./b") = None
  /\ open empty_registry "a/./b" Samples.no_files
     = (Return [] (Some (Err "file does not exist")), empty_registry,
        [EvOpen "a/b" false])
  /\ open empty_registry "a/./b" Samples.bad_disk
     = (Return [] (Some (Err "input/output error")), empty_registry,
        read_through_io "a/b" 2)
  /\ open empty_registry "a/./b" Samples.one_file
     = (Return Samples.hello None, Samples.cached, read_through_io "a/b" 3).
Proof.
  split; [reflexivity |].
  destruct (open_failure_not_cached empty_registry "a/./b" Samples.no_files)
    as [Hfail _].
  destruct (Hfail eq_refl) as [Hopenfail _].
  split; [exact (Hopenfail (Err "file does not exist") eq_refl) |].
  destruct (open_failure_not_cached empty_registry "a/./b" Samples.bad_disk)
    as [Hfail' Hreturned].
  destruct (Hfail' eq_refl) as [_ Hreadfail].
  pose proof (Hreadfail _ (String.list_byte_of_string "hel")
                (Err "input/output error") 2 eq_refl eq_refl) as Hbad.
  split; [exact Hbad |].
  destruct (Hreturned _ _ _ _ Hbad) as (_ & _ & _ & _ & _ & Hretry).
  exact (Hretry Samples.one_file _ Samples.hello 3 eq_refl eq_refl).
Defined.

(** C5 (write-once): on a registry that a program can hold, a key that is
    present holds a byte slice, and after every further sequence of serial
    calls of [open] the key holds the same bytes: no call changes or removes
    an entry. *)
Theorem entries_write_once (fr : registry) (key : string) (v : any)
    (calls : list (string * Fs)) :
  reachable fr ->
  Load fr key = Some v ->
  exists data,
    v = AnyBytes data
    /\ Load (registry_after fr calls) key = Some (AnyBytes data).
Proof.
  intros Hfr Hload.
  destruct (reachable_only_byte_slices fr Hfr _ _ Hload) as [data ->].
  exists data. split; [reflexivity | by apply serial_keeps_entries].
Qed.

Lemma entries_write_once_witness :
  reachable Samples.cached
  /\ Load Samples.cached "a/b" = Some (AnyBytes Samples.hello)
  /\ Load (registry_after Samples.cached
             [("a/b", Samples.bad_disk); ("x", Samples.no_files);
              ("a/./b", Samples.no_files)]) "a/b"
     = Some (AnyBytes Samples.hello).
Proof.
  split; [exact cached_reachable |]. split; [reflexivity |].
  destruct (entries_write_once Samples.cached "a/b"
              (AnyBytes Samples.hello)
              [("a/b", Samples.bad_disk); ("x", Samples.no_files);
               ("a/./b", Samples.no_files)] cached_reachable eq_refl)
    as (data & Hdata & Hload).
  injection Hdata as <-. exact Hload.
Defined.

(** C7 (frame): a call of [open] leaves the registry as it is or stores one
    entry, under the cleaned path, which had none; the entries of all other
    keys are as before, and the map grows by one entry at most. *)
Theorem open_changes_one_entry (fr : registry) (filename : string)
    (fromFs : Fs) (out : outcome) (fr' : registry) (io : list event) :
  open fr filename fromFs = (out, fr', io) ->
  (fr' = fr
   \/ exists data,
        Load fr (filepath.Clean filename) = None
        /\ out = Return data None
        /\ fr' = Store fr (filepath.Clean filename) (AnyBytes data))
  /\ (forall key, key <> filepath.Clean filename ->
                  Load fr' key = Load fr key)
  /\ (forall key v, Load fr key = Some v -> Load fr' key = Some v)
  /\ size (openedFiles fr') <= S (size (openedFiles fr)).
Proof.
  intros Hopen. split; [|split; [|split]].
  - apply open_takes_a_path in Hopen.
    destruct Hopen; try (by left). right. by eexists.
  - intros key Hne. by eapply open_frames_other_keys.
  - intros key v. by eapply open_keeps_entries.
  - apply open_takes_a_path in Hopen.
    destruct Hopen; try lia. by rewrite Store_size.
Qed.

Lemma open_changes_one_entry_witness :
  open Samples.cached "x/../c" Samples.no_files
  = (Return [] (Some (Err "file does not exist")), Samples.cached,
     [EvOpen "c" false])
  /\ open empty_registry "a/b" Samples.one_file
     = (Return Samples.hello None, Samples.cached, read_through_io "a/b" 3)
  /\ (forall key, key <> "a/b" ->
                  Load Samples.cached key = Load empty_registry key)
  /\ size (openedFiles Samples.cached) <= 1.
Proof.
  split; [reflexivity |]. split; [reflexivity |].
  destruct (open_changes_one_entry empty_registry "a/b" Samples.one_file
              (Return Samples.hello None) Samples.cached
              (read_through_io "a/b" 3) eq_refl)
    as (_ & Hframe & _ & Hsize).
  split; [exact Hframe | exact Hsize].
Defined.

(** C8 (the panic): where the value cached under the cleaned path is no byte
    slice, [open] panics, with the error that names the file, and does
    nothing else; on a registry that a program can hold, which only [open]
    has written, no call of [open] panics. *)
Theorem open_panics_only_on_corruption :
  (forall (fr : registry) (filename : string) (fromFs : Fs) (v : any),
      Load fr (filepath.Clean filename) = Some v ->
      (forall data, v <> AnyBytes data) ->
      open fr filename fromFs
      = (Panic (not_a_byte_slice (filepath.Clean filename)), fr, []))
  /\ (forall (fr : registry) (filename : string) (fromFs : Fs) (v : error),
         reachable fr ->
         (open fr filename fromFs).1.1 <> Panic v).
Proof.
  split.
  - intros fr filename fromFs v. apply open_hit_panic.
  - intros fr filename fromFs v Hfr Hpanic.
    destruct (open fr filename fromFs) as [[out fr'] io] eqn:Hopen.
    simpl in Hpanic. subst out.
    apply open_takes_a_path in Hopen.
    inversion Hopen as [ | w Hload Hw | | | ]; subst.
    destruct (reachable_only_byte_slices _ Hfr _ _ Hload) as [data ->].
    by destruct (Hw data).
Qed.

Lemma open_panics_only_on_corruption_witness :
  Load Samples.corrupt "a/b" = Some (AnyString "hello")
  /\ open Samples.corrupt "a/./b" Samples.one_file
     = (Panic (Err "registry's file a/b is not stored as a byte slice"),
        Samples.corrupt, [])
  /\ reachable Samples.cached
  /\ (open Samples.cached "a/./b" Samples.one_file).1.1
     <> Panic (Err "registry's file a/b is not stored as a byte slice").
Proof.
  destruct open_panics_only_on_corruption as [Hpanic Hnever].
  split; [reflexivity |]. split; [|split; [exact cached_reachable |]].
  - apply (Hpanic Samples.corrupt "a/./b" Samples.one_file
             (AnyString "hello") eq_refl).
    intros data. discriminate.
  - apply Hnever. exact cached_reachable.
Defined.

(** ** Serial calls for one path *)

Lemma queries_app name io1 io2 :
  queries name (io1 ++ io2) = queries name io1 + queries name io2.
Proof. unfold queries. by rewrite filter_app, length_app. Qed.

Lemma queries_reads name name' calls :
  queries name (replicate calls (EvRead name')) = 0.
Proof.
  unfold queries. induction calls as [|calls IH]; [reflexivity |].
  simpl. rewrite filter_cons_False; [exact IH | simpl; discriminate].
Qed.

Lemma queries_read_through name calls :
  queries name (read_through_io name calls) = 1.
Proof.
  unfold read_through_io.
  change (EvOpen name true :: replicate calls (EvRead name))
    with ([EvOpen name true] ++ replicate calls (EvRead name)).
  rewrite queries_app, queries_reads. unfold queries.
  rewrite filter_cons_True; [reflexivity |].
  simpl. by apply bool_decide_eq_true.
Qed.

(** After a call that returned content with no error, the content is cached
    under the cleaned path. *)
Lemma open_success_cached fr filename fromFs content fr' io :
  open fr filename fromFs = (Return content None, fr', io) ->
  Load fr' (filepath.Clean filename) = Some (AnyBytes content)
  /\ queries (filepath.Clean filename) io <= 1.
Proof.
  intros Hopen. apply open_takes_a_path in Hopen.
  inversion Hopen; subst.
  - split; [assumption | unfold queries; simpl; lia].
  - split; [apply Load_Store | by rewrite queries_read_through].
Qed.

(** Calls for paths that clean to a cached key are all served from the cache,
    whatever the filesystem is at each of them. *)
Lemma serial_hits fr key content (later : list (string * Fs)) :
  Load fr key = Some (AnyBytes content) ->
  Forall (fun call => filepath.Clean call.1 = key) later ->
  serial fr later
  = (replicate (length later) (Return content None, []), fr).
Proof.
  intros Hload. induction 1 as [|[filename fromFs] later Hkey _ IH].
  - reflexivity.
  - simpl in *. rewrite (open_hit fr filename fromFs content)
      by (by rewrite Hkey).
    by rewrite IH.
Qed.

Lemma concat_replicate_nil {A B} (n : nat) (x : A) :
  concat ((replicate n (x, @nil B)).*2) = [].
Proof. induction n as [|n IH]; [reflexivity | exact IH]. Qed.

(** ** Equivalent paths *)

Lemma open_io_names fr filename fromFs out fr' io :
  open fr filename fromFs = (out, fr', io) ->
  Forall (fun e => event_name e = filepath.Clean filename) io.
Proof.
  intros Hopen. apply open_takes_a_path in Hopen.
  assert (Hrt : forall calls,
    Forall (fun e => event_name e = filepath.Clean filename)
      (read_through_io (filepath.Clean filename) calls)).
  { intros calls. constructor; [reflexivity |].
    induction calls; constructor; done. }
  destruct Hopen; auto.
Qed.

(** ** File handles *)

(** [open] calls [Close] on nothing. *)
Lemma open_never_closes fr filename fromFs name :
  EvClose name ∉ (open fr filename fromFs).2.
Proof.
  destruct (open fr filename fromFs) as [[out fr'] io] eqn:Hopen.
  apply open_takes_a_path in Hopen. simpl.
  assert (Hreads : forall n' calls,
    EvClose name ∉ replicate calls (EvRead n')).
  { intros n' calls [Heq _]%elem_of_replicate. discriminate. }
  destruct Hopen; unfold read_through_io;
    rewrite ?not_elem_of_cons; repeat split; try done;
    apply not_elem_of_nil.
Qed.

Lemma left_open_reads name calls :
  left_open (replicate calls (EvRead name)) = [].
Proof. induction calls as [|calls IH]; [reflexivity | exact IH]. Qed.

(** Whenever [open] gets a file from the filesystem, the file is still open
    when [open] returns, be it with the content or with a read error. *)
Lemma open_leaks_handle fr filename fromFs f :
  Load fr (filepath.Clean filename) = None ->
  Open fromFs (filepath.Clean filename) = inr f ->
  left_open (open fr filename fromFs).2 = [filepath.Clean filename].
Proof.
  intros Hload Hopen.
  pose proof (open_never_closes fr filename fromFs
                (filepath.Clean filename)) as Hclose.
  revert Hclose. unfold open. rewrite Hload, Hopen.
  destruct (ReadAll f) as [[data [err|]] calls]; simpl; intros Hclose;
    (rewrite bool_decide_eq_false_2, left_open_reads; [reflexivity |]);
    intros Hin; apply Hclose; by right.
Qed.

(** ** The claims about several calls *)

(** C2, as it is written, fails: a file that is missing is not cached as
    missing, so two calls for it ask the filesystem twice. *)
Lemma read_once_fails_on_missing_file :
  ~ read_once_as_stated empty_registry "missing.txt" Samples.no_files 2.
Proof. intros [_ Hqueries]. vm_compute in Hqueries. lia. Qed.

(** C2 (amended): if a call of [open] for a path returns content with no
    error, then all later serial calls for the path, whatever the filesystem
    has become, return the same content with no error and make no I/O; the
    I/O of all the calls is that of the first one, in which the filesystem is
    asked for the cleaned path once at most. *)
Theorem serial_reads_once (fr : registry) (filename : string) (fromFs : Fs)
    (content : bytes) (fr1 : registry) (io : list event) (later : list Fs) :
  open fr filename fromFs = (Return content None, fr1, io) ->
  serial fr ((filename, fromFs) :: map (pair filename) later)
  = ((Return content None, io)
       :: replicate (length later) (Return content None, []), fr1)
  /\ serial_io fr ((filename, fromFs) :: map (pair filename) later) = io
  /\ queries (filepath.Clean filename) io <= 1.
Proof.
  intros Hopen.
  destruct (open_success_cached _ _ _ _ _ _ Hopen) as [Hload Hqueries].
  assert (Hlater :
    serial fr1 (map (pair filename) later)
    = (replicate (length later) (Return content None, []), fr1)).
  { rewrite (serial_hits fr1 (filepath.Clean filename) content).
    - by rewrite length_map.
    - exact Hload.
    - apply Forall_forall. intros call [source [-> _]]%list_elem_of_fmap.
      reflexivity. }
  assert (Hserial :
    serial fr ((filename, fromFs) :: map (pair filename) later)
    = ((Return content None, io)
         :: replicate (length later) (Return content None, []), fr1)).
  { simpl. by rewrite Hopen, Hlater. }
  split; [exact Hserial | split; [| exact Hqueries]].
  unfold serial_io. rewrite Hserial. simpl.
  by rewrite concat_replicate_nil, app_nil_r.
Qed.

Lemma serial_reads_once_witness :
  open empty_registry "a/b" Samples.one_file
  = (Return Samples.hello None, Samples.cached, read_through_io "a/b" 3)
  /\ serial empty_registry
       [("a/b", Samples.one_file); ("a/b", Samples.no_files);
        ("a/b", Samples.bad_disk)]
     = ([(Return Samples.hello None, read_through_io "a/b" 3);
         (Return Samples.hello None, []);
         (Return Samples.hello None, [])], Samples.cached)
  /\ queries "a/b" (read_through_io "a/b" 3) <= 1.
Proof.
  split; [reflexivity |].
  destruct (serial_reads_once empty_registry "a/b" Samples.one_file
              Samples.hello Samples.cached (read_through_io "a/b" 3)
              [Samples.no_files; Samples.bad_disk] eq_refl)
    as (Hserial & _ & Hqueries).
  split; [exact Hserial | exact Hqueries].
Defined.

(** C4, as it is written, fails: where the first of two equivalent paths
    cannot be opened, nothing is cached and the call for the second one asks
    the filesystem again. *)
Lemma same_entry_fails_on_missing_file :
  ~ same_entry_as_stated empty_registry "a/./b" "a/b" Samples.no_files.
Proof. intros Hsame. specialize (Hsame eq_refl). discriminate Hsame. Qed.

(** C4 (amended): for two paths that clean to the same string, [open] does
    the same on every registry and filesystem, using the cleaned string as
    the key of the cache and as the name in every call on the filesystem;
    and once [open] of the one has returned content with no error, [open] of
    the other returns that content from the cache and makes no I/O. *)
Theorem equivalent_paths_share_entry (fr : registry) (p q : string) :
  filepath.Clean p = filepath.Clean q ->
  (forall fromFs : Fs, open fr q fromFs = open fr p fromFs)
  /\ (forall (fromFs : Fs) out fr' io,
         open fr p fromFs = (out, fr', io) ->
         Forall (fun e => event_name e = filepath.Clean q) io
         /\ forall key, key <> filepath.Clean q -> Load fr' key = Load fr key)
  /\ (forall (fromFs fromFs' : Fs) content fr1 io,
         open fr p fromFs = (Return content None, fr1, io) ->
         Load fr1 (filepath.Clean q) = Some (AnyBytes content)
         /\ open fr1 q fromFs' = (Return content None, fr1, [])).
Proof.
  intros Hclean. split; [|split].
  - intros fromFs. unfold open. by rewrite Hclean.
  - intros fromFs out fr' io Hopen. rewrite <- Hclean. split.
    + by eapply open_io_names.
    + intros key Hne. by eapply open_frames_other_keys.
  - intros fromFs fromFs' content fr1 io Hopen.
    destruct (open_success_cached _ _ _ _ _ _ Hopen) as [Hload _].
    rewrite <- Hclean. split; [exact Hload |].
    apply open_hit. by rewrite <- Hclean.
Qed.

Lemma equivalent_paths_share_entry_witness :
  filepath.Clean "a/./b" = filepath.Clean "a/b"
  /\ open empty_registry "a/./b" Samples.one_file
     = (Return Samples.hello None, Samples.cached, read_through_io "a/b" 3)
  /\ open empty_registry "a/b" Samples.one_file
     = open empty_registry "a/./b" Samples.one_file
  /\ open Samples.cached "a/b" Samples.no_files
     = (Return Samples.hello None, Samples.cached, []).
Proof.
  split; [reflexivity |]. split; [reflexivity |].
  destruct (equivalent_paths_share_entry empty_registry "a/./b" "a/b"
              eq_refl) as (Hsame & _ & Hhit).
  split; [apply Hsame |].
  apply (Hhit Samples.one_file Samples.no_files Samples.hello
           Samples.cached (read_through_io "a/b" 3) eq_refl).
Defined.

(** C10 (the empty path): cleaning maps the empty path to [.], which is its
    own cleaning; so [open] of the empty path does on every registry and
    filesystem what [open] of [.] does, with [.] as the key that is looked up
    in the cache and stored, and as the name opened on the filesystem: a
    byte slice cached under [.] is returned without I/O, another value cached
    under [.] makes it panic, and on a miss it opens [.] on the filesystem,
    returns the error of opening or reading [.], or returns the content
    read and stores it under [.]. *)
Theorem open_empty_path_is_dot (fr : registry) (fromFs : Fs) :
  filepath.Clean "" = "."
  /\ filepath.Clean "." = "."
  /\ open fr "" fromFs = open fr "." fromFs
  /\ (forall data,
         Load fr "." = Some (AnyBytes data) ->
         open fr "" fromFs = (Return data None, fr, []))
  /\ (forall v,
         Load fr "." = Some v ->
         (forall data, v <> AnyBytes data) ->
         open fr "" fromFs = (Panic (not_a_byte_slice "."), fr, []))
  /\ (Load fr "." = None ->
      (forall err,
          Open fromFs "." = inl err ->
          open fr "" fromFs = (Return [] (Some err), fr, [EvOpen "." false]))
      /\ (forall f part err calls,
             Open fromFs "." = inr f ->
             ReadAll f = (part, Some err, calls) ->
             open fr "" fromFs
             = (Return [] (Some err), fr,
                EvOpen "." true :: replicate calls (EvRead ".")))
      /\ (forall f data calls,
             Open fromFs "." = inr f ->
             ReadAll f = (data, None, calls) ->
             open fr "" fromFs
             = (Return data None, Store fr "." (AnyBytes data),
                EvOpen "." true :: replicate calls (EvRead ".")))).
Proof.
  split; [reflexivity |]. split; [reflexivity |]. split; [reflexivity |].
  split; [|split].
  - intros data Hload. exact (open_hit fr "" fromFs data Hload).
  - intros v Hload Hv. exact (open_hit_panic fr "" fromFs v Hload Hv).
  - intros Hload. split; [|split].
    + intros err Hfs.
      exact (open_miss_open_failed fr "" fromFs err Hload Hfs).
    + intros f part err calls Hfs Hread.
      exact (open_miss_read_failed fr "" fromFs f part err calls
               Hload Hfs Hread).
    + intros f data calls Hfs Hread.
      exact (open_miss_read fr "" fromFs f data calls Hload Hfs Hread).
Qed.

Lemma open_empty_path_is_dot_witness :
  Load empty_registry "." = None
  /\ Open Samples.dot_file "." = inr [(Samples.hello, Some EOF)]
  /\ ReadAll [(Samples.hello, Some EOF)] = (Samples.hello, None, 1)
  /\ open empty_registry "" Samples.dot_file
     = (Return Samples.hello None,
        Store empty_registry "." (AnyBytes Samples.hello),
        [EvOpen "." true; EvRead "."])
  /\ open (Store empty_registry "." (AnyBytes Samples.hello)) ""
       Samples.no_files
     = (Return Samples.hello None,
        Store empty_registry "." (AnyBytes Samples.hello), [])
  /\ open empty_registry "" Samples.no_files
     = (Return [] (Some (Err "file does not exist")), empty_registry,
        [EvOpen "." false]).
Proof.
  split; [reflexivity |]. split; [reflexivity |]. split; [reflexivity |].
  destruct (open_empty_path_is_dot empty_registry Samples.dot_file)
    as (_ & _ & _ & _ & _ & Hmiss).
  destruct (Hmiss eq_refl) as (_ & _ & Hread).
  split; [exact (Hread _ Samples.hello 1 eq_refl eq_refl) |].
  destruct (open_empty_path_is_dot
              (Store empty_registry "." (AnyBytes Samples.hello))
              Samples.no_files) as (_ & _ & _ & Hhit & _).
  split; [exact (Hhit Samples.hello eq_refl) |].
  destruct (open_empty_path_is_dot empty_registry Samples.no_files)
    as (_ & _ & _ & _ & _ & Hmiss').
  destruct (Hmiss' eq_refl) as (Hfail & _).
  exact (Hfail (Err "file does not exist") eq_refl).
Defined.

(** C6 (file handles), at two inputs: [open] reads the file [a/b] to its end
    and returns its content, and [open] fails reading it; both times the
    filesystem is asked to open the file, the file is read, and no call of
    [Close] follows: the file is left open. *)
Theorem open_leaves_file_open :
  open empty_registry "a/b" Samples.one_file
  = (Return Samples.hello None,
     Store empty_registry "a/b" (AnyBytes Samples.hello),
     [EvOpen "a/b" true; EvRead "a/b"; EvRead "a/b"; EvRead "a/b"])
  /\ left_open (open empty_registry "a/b" Samples.one_file).2 = ["a/b"]
  /\ open empty_registry "a/b" Samples.bad_disk
     = (Return [] (Some (Err "input/output error")), empty_registry,
        [EvOpen "a/b" true; EvRead "a/b"; EvRead "a/b"])
  /\ left_open (open empty_registry "a/b" Samples.bad_disk).2 = ["a/b"].
Proof. repeat split. Qed.

(** ** Concurrent calls *)

(** A goroutine that runs alone does what [open] does. *)
Lemma thread_alone fr filename fromFs :
  run filename fromFs (start fr 1) [0; 0; 0]
  = ((open fr filename fromFs).1.2,
     [Done (open fr filename fromFs).1.1 (open fr filename fromFs).2]).
Proof.
  unfold start, open. simpl. unfold machine_step. simpl.
  destruct (Load fr (filepath.Clean filename)) as [[]|] eqn:Hload;
    simpl; try reflexivity.
  destruct (Open fromFs (filepath.Clean filename)) as [err|f];
    simpl; try reflexivity.
  destruct (ReadAll f) as [[data [err|]] calls]; reflexivity.
Qed.

Lemma machine_step_length filename fromFs m i :
  length (machine_step filename fromFs m i).2 = length m.2.
Proof.
  unfold machine_step. destruct (m.2 !! i) as [t|]; [|reflexivity].
  destruct (thread_step filename fromFs m.1 t). simpl.
  apply length_insert.
Qed.

Lemma thread_step_pc filename fromFs fr t :
  Nat.min 3 (S (pc t)) <= pc (thread_step filename fromFs fr t).2.
Proof.
  destruct t; cbn [thread_step pc snd]; try lia.
  - destruct (Load fr _) as [[]|]; cbn [pc snd]; lia.
  - destruct (Open fromFs _) as [err|f]; cbn [pc snd]; [lia |].
    destruct (ReadAll f) as [[data [err|]] calls]; cbn [pc snd]; lia.
Qed.

(** A goroutine that is scheduled three times has returned. *)
Lemma run_progress filename fromFs schedule : forall m i t,
  m.2 !! i = Some t ->
  exists t',
    (run filename fromFs m schedule).2 !! i = Some t'
    /\ Nat.min 3 (pc t + count_occ Nat.eq_dec schedule i) <= pc t'.
Proof.
  induction schedule as [|j schedule IH]; intros m i t Hlookup.
  - exists t. split; [exact Hlookup | cbn [count_occ]; lia].
  - simpl run. destruct (Nat.eq_dec j i) as [->|Hne].
    + assert (Hstep : (machine_step filename fromFs m i).2 !! i
                      = Some (thread_step filename fromFs m.1 t).2).
      { unfold machine_step. rewrite Hlookup.
        destruct (thread_step filename fromFs m.1 t) as [fr' t']. simpl.
        apply list_lookup_insert_eq. by eapply lookup_lt_Some. }
      destruct (IH _ _ _ Hstep) as (t' & Hrun & Hpc).
      exists t'. split; [exact Hrun |].
      pose proof (thread_step_pc filename fromFs m.1 t).
      cbn [count_occ]. destruct (Nat.eq_dec i i); [lia | done].
    + assert (Hstep : (machine_step filename fromFs m j).2 !! i = Some t).
      { unfold machine_step. destruct (m.2 !! j) as [tj|]; [|exact Hlookup].
        destruct (thread_step filename fromFs m.1 tj) as [fr' t']. simpl.
        by rewrite list_lookup_insert_ne. }
      destruct (IH _ _ _ Hstep) as (t' & Hrun & Hpc).
      exists t'. split; [exact Hrun |].
      cbn [count_occ]. destruct (Nat.eq_dec j i); [done | lia].
Qed.

Lemma run_length filename fromFs schedule : forall m,
  length (run filename fromFs m schedule).2 = length m.2.
Proof.
  induction schedule as [|j schedule IH]; intros m; [reflexivity |].
  simpl. by rewrite IH, machine_step_length.
Qed.

Lemma run_completes filename fromFs fr n schedule :
  (forall i, i < n -> 3 <= count_occ Nat.eq_dec schedule i) ->
  all_done (run filename fromFs (start fr n) schedule).
Proof.
  intros Hfair. apply Forall_lookup. intros i t' Hlookup.
  assert (Hi : i < n).
  { apply lookup_lt_Some in Hlookup.
    rewrite run_length in Hlookup. unfold start in Hlookup. simpl in Hlookup.
    by rewrite length_replicate in Hlookup. }
  destruct (run_progress filename fromFs schedule (start fr n) i AtLoad)
    as (t'' & Hrun & Hpc).
  { unfold start. simpl. by apply lookup_replicate_2. }
  rewrite Hlookup in Hrun. injection Hrun as <-.
  specialize (Hfair i Hi). change (pc AtLoad) with 0 in Hpc.
  destruct t'; cbn [pc] in Hpc; try lia. reflexivity.
Qed.

Lemma Store_Store fr key value :
  Store (Store fr key value) key value = Store fr key value.
Proof. apply registry_eq. unfold Store; simpl. apply insert_insert_eq. Qed.

Section Race.
Variables (fr : registry) (filename : string) (fromFs : Fs).
Variables (f : File) (content : bytes) (calls : nat).

Hypothesis Hmiss : Load fr (filepath.Clean filename) = None.
Hypothesis Hopen : Open fromFs (filepath.Clean filename) = inr f.
Hypothesis Hread : ReadAll f = (content, None, calls).

Lemma race_inv_start n :
  race_inv fr (filepath.Clean filename) content (start fr n).
Proof.
  split; [|left; split; [reflexivity |]];
    apply Forall_forall; by intros t [-> _]%elem_of_replicate.
Qed.

Lemma race_inv_step m i :
  race_inv fr (filepath.Clean filename) content m ->
  race_inv fr (filepath.Clean filename) content
    (machine_step filename fromFs m i).
Proof.
  destruct m as [r ts]. intros [Hagree Hreg]. unfold machine_step.
  simpl in *.
  destruct (ts !! i) as [t|] eqn:Hlookup; [|by split].
  pose proof (Forall_lookup_1 _ _ _ _ Hagree Hlookup) as Ht.
  destruct t as [| |data io|out io]; cbn [thread_step].
  - (* the Load *)
    destruct Hreg as [[-> Hnone]| ->].
    + rewrite Hmiss. split; [by apply Forall_insert |].
      left. split; [reflexivity | by apply Forall_insert].
    + rewrite Load_Store. split; [by apply Forall_insert | by right].
  - (* opening and reading the file *)
    rewrite Hopen, Hread. split; [by apply Forall_insert |].
    destruct Hreg as [[-> Hnone]| ->]; [left | by right].
    split; [reflexivity | by apply Forall_insert].
  - (* the Store *)
    simpl in Ht. subst data. split; [by apply Forall_insert |].
    right. simpl. destruct Hreg as [[-> _]| ->];
      [reflexivity | apply Store_Store].
  - (* returned already *)
    rewrite list_insert_id by exact Hlookup. by split.
Qed.

Lemma race_inv_run schedule : forall m,
  race_inv fr (filepath.Clean filename) content m ->
  race_inv fr (filepath.Clean filename) content
    (run filename fromFs m schedule).
Proof.
  induction schedule as [|i schedule IH]; intros m Hinv; [exact Hinv |].
  simpl. by apply IH, race_inv_step.
Qed.
End Race.

(** Where the file cannot be opened, a race stores nothing and everybody gets
    the error. *)
Lemma race_for_missing_file filename fromFs err schedule : forall m,
  Open fromFs (filepath.Clean filename) = inl err ->
  Forall (fun t => pc t <= 1
                   \/ exists io, t = Done (Return [] (Some err)) io) m.2 ->
  Load m.1 (filepath.Clean filename) = None ->
  (run filename fromFs m schedule).1 = m.1
  /\ Forall (fun t => pc t <= 1
                      \/ exists io, t = Done (Return [] (Some err)) io)
       (run filename fromFs m schedule).2.
Proof.
  intros m Hopen. revert m.
  induction schedule as [|i schedule IH]; intros m Hts Hload; [by split |].
  simpl.
  assert (Hstep :
    (machine_step filename fromFs m i).1 = m.1
    /\ Forall (fun t => pc t <= 1
                        \/ exists io, t = Done (Return [] (Some err)) io)
         (machine_step filename fromFs m i).2).
  { unfold machine_step.
    destruct (m.2 !! i) as [t|] eqn:Hlookup; [|by split].
    pose proof (Forall_lookup_1 _ _ _ _ Hts Hlookup) as Ht.
    destruct t as [| |data io|out io]; cbn [thread_step].
    - rewrite Hload. split; [reflexivity |].
      apply Forall_insert; [exact Hts | left; simpl; lia].
    - rewrite Hopen. split; [reflexivity |].
      apply Forall_insert; [exact Hts | right; by eexists].
    - destruct Ht as [Hpc|[io' Hdone]]; [simpl in Hpc; lia | discriminate].
    - split; [reflexivity |]. by rewrite list_insert_id. }
  destruct Hstep as [Hfr Hts'].
  destruct (IH (machine_step filename fromFs m i) Hts') as [Hfr' Hrun].
  - by rewrite Hfr.
  - split; [by rewrite Hfr', Hfr | exact Hrun].
Qed.

(** C9, as it is written, fails: two goroutines race for a file that is
    missing; both return the error, and the registry has no entry for the
    path. *)
Lemma concurrent_fails_on_missing_file :
  ~ concurrent_as_stated empty_registry "missing.txt" Samples.no_files 2
      [0; 1; 0; 1].
Proof.
  intros Hstated. destruct Hstated as [_ [data Hentry]].
  - reflexivity.
  - by repeat constructor.
  - discriminate Hentry.
Qed.

(** C9 (amended): goroutines race on one registry with [open] of a path that
    is not cached and that the filesystem opens and reads to the end, with
    [Load] and [Store] of the map as atomic steps.  Then under every
    schedule, at every moment: the registry has no entry for the cleaned path
    or the whole content, and the entries of other keys are untouched; a
    goroutine that has returned got the content with no error, and the
    registry then is the initial one with the content stored under the
    cleaned path; and once every goroutine had its three steps, all have
    returned. *)
Theorem concurrent_opens_agree (fr : registry) (filename : string)
    (fromFs : Fs) (f : File) (content : bytes) (calls n : nat)
    (schedule : list nat) :
  Load fr (filepath.Clean filename) = None ->
  Open fromFs (filepath.Clean filename) = inr f ->
  ReadAll f = (content, None, calls) ->
  (Load (run filename fromFs (start fr n) schedule).1 (filepath.Clean filename)
   = None
   \/ Load (run filename fromFs (start fr n) schedule).1
        (filepath.Clean filename)
      = Some (AnyBytes content))
  /\ (forall key, key <> filepath.Clean filename ->
        Load (run filename fromFs (start fr n) schedule).1 key = Load fr key)
  /\ (forall i out io,
        (run filename fromFs (start fr n) schedule).2 !! i
        = Some (Done out io) ->
        out = Return content None
        /\ (run filename fromFs (start fr n) schedule).1
           = Store fr (filepath.Clean filename) (AnyBytes content))
  /\ ((forall i, i < n -> 3 <= count_occ Nat.eq_dec schedule i) ->
      all_done (run filename fromFs (start fr n) schedule)).
Proof.
  intros Hmiss Hopen Hread.
  pose proof (race_inv_run fr filename fromFs f content calls
                Hmiss Hopen Hread schedule (start fr n)
                (race_inv_start fr filename content n)) as [Hagree Hreg].
  split; [|split; [|split]].
  - destruct Hreg as [[-> _]| ->]; [by left | right; apply Load_Store].
  - intros key Hne.
    destruct Hreg as [[-> _]| ->]; [reflexivity | by apply Load_Store_ne].
  - intros i out io Hlookup.
    pose proof (Forall_lookup_1 _ _ _ _ Hagree Hlookup) as Hout.
    split; [exact Hout |].
    destruct Hreg as [[_ Hnone]|Hfr]; [|exact Hfr].
    pose proof (Forall_lookup_1 _ _ _ _ Hnone Hlookup). discriminate.
  - apply run_completes.
Qed.

Lemma concurrent_opens_agree_witness :
  Load empty_registry (filepath.Clean "a//b") = None
  /\ Open Samples.one_file (filepath.Clean "a//b")
     = inr [(String.list_byte_of_string "hel", None);
            (String.list_byte_of_string "lo", None)]
  /\ ReadAll [(String.list_byte_of_string "hel", None);
              (String.list_byte_of_string "lo", None)]
     = (Samples.hello, None, 3)
  /\ run "a//b" Samples.one_file (start empty_registry 2) [0; 1; 1; 0; 0; 1]
     = (Samples.cached,
        [Done (Return Samples.hello None) (read_through_io "a/b" 3);
         Done (Return Samples.hello None) (read_through_io "a/b" 3)])
  /\ all_done
       (run "a//b" Samples.one_file (start empty_registry 2)
          [0; 1; 1; 0; 0; 1]).
Proof.
  split; [reflexivity |]. split; [reflexivity |]. split; [reflexivity |].
  split; [reflexivity |].
  destruct (concurrent_opens_agree empty_registry "a//b" Samples.one_file
              [(String.list_byte_of_string "hel", None);
               (String.list_byte_of_string "lo", None)]
              Samples.hello 3 2 [0; 1; 1; 0; 0; 1] eq_refl eq_refl eq_refl)
    as (_ & _ & _ & Hdone).
  apply Hdone. intros [|[|i]] Hi; cbn; lia.
Defined.

(** * Further properties of the registry *)

(** ** Where the entries come from *)

(** Every entry of the registry after a serial run was there before the run,
    or is the complete content that the filesystem of one of the calls
    delivered for the key, which is the cleaned path of that call. *)
Theorem cached_entries_were_delivered (calls : list (string * Fs)) :
  forall (fr : registry) (key : string) (v : any),
    Load (registry_after fr calls) key = Some v ->
    Load fr key = Some v
    \/ exists filename fromFs f data n,
         (filename, fromFs) ∈ calls
         /\ filepath.Clean filename = key
         /\ Open fromFs key = inr f
         /\ ReadAll f = (data, None, n)
         /\ v = AnyBytes data.
Proof.
  induction calls as [|[filename fromFs] calls IH]; intros fr key v Hload.
  - by left.
  - unfold registry_after in *. simpl in Hload.
    destruct (open fr filename fromFs) as [[out fr'] io] eqn:Hopen.
    destruct (serial fr' calls) as [outs fr''] eqn:Hserial.
    simpl in Hload. specialize (IH fr' key v).
    rewrite Hserial in IH. destruct (IH Hload) as [Hfr'|Hlater].
    + apply open_takes_a_path in Hopen.
      destruct Hopen as [ | | | |f data n Hmiss Hfs Hread];
        try (by left).
      destruct (decide (filepath.Clean filename = key)) as [<-|Hne].
      * rewrite Load_Store in Hfr'. injection Hfr' as <-.
        right. exists filename, fromFs, f, data, n.
        repeat split; try done. by left.
      * rewrite Load_Store_ne in Hfr' by done. by left.
    + destruct Hlater as (fn & fs & f & data & n & Hin & Hrest).
      right. exists fn, fs, f, data, n. split; [by right | exact Hrest].
Qed.

Lemma cached_entries_were_delivered_witness :
  Load (registry_after empty_registry
          [("x", Samples.no_files); ("a/./b", Samples.one_file)]) "a/b"
  = Some (AnyBytes Samples.hello)
  /\ exists fromFs f n,
       Open fromFs "a/b" = inr f /\ ReadAll f = (Samples.hello, None, n).
Proof.
  split; [reflexivity |].
  destruct (cached_entries_were_delivered
              [("x", Samples.no_files); ("a/./b", Samples.one_file)]
              empty_registry "a/b" (AnyBytes Samples.hello) eq_refl)
    as [Hbefore|(fn & fs & f & data & n & _ & _ & Hfs & Hread & Hdata)].
  - discriminate Hbefore.
  - injection Hdata as <-. by exists fs, f, n.
Defined.

(** ** How calls compose *)

(** What [open] returns, the I/O it makes and the entry it leaves under the
    cleaned path depend on the registry through that entry only. *)
Lemma open_local fr fr0 filename fromFs :
  Load fr0 (filepath.Clean filename) = Load fr (filepath.Clean filename) ->
  (open fr0 filename fromFs).1.1 = (open fr filename fromFs).1.1
  /\ (open fr0 filename fromFs).2 = (open fr filename fromFs).2
  /\ Load (open fr0 filename fromFs).1.2 (filepath.Clean filename)
     = Load (open fr filename fromFs).1.2 (filepath.Clean filename).
Proof.
  intros Hload. unfold open. rewrite Hload.
  destruct (Load fr (filepath.Clean filename)) as [v|] eqn:Hfr.
  - destruct v; simpl; by rewrite ?Hload, ?Hfr.
  - destruct (Open fromFs (filepath.Clean filename)) as [err|f]; simpl;
      [by rewrite Hload, Hfr |].
    destruct (ReadAll f) as [[data [err|]] n]; simpl;
      [by rewrite Hload, Hfr | by rewrite !Load_Store].
Qed.

Lemma open_frame_proj fr filename fromFs key :
  key <> filepath.Clean filename ->
  Load (open fr filename fromFs).1.2 key = Load fr key.
Proof.
  intros Hne.
  destruct (open fr filename fromFs) as [[out fr'] io] eqn:Hopen.
  by eapply open_frames_other_keys.
Qed.

Lemma registry_ext fr fr' :
  (forall key, Load fr key = Load fr' key) -> fr = fr'.
Proof. intros Hext. apply registry_eq, map_eq, Hext. Qed.

(** Calls for paths with different cleanings do not influence each other:
    in either order each of the two calls returns the same, makes the same
    I/O, and the registry in the end is the same. *)
Theorem opens_of_different_paths_commute (fr : registry) (p q : string)
    (fsp fsq : Fs) :
  filepath.Clean p <> filepath.Clean q ->
  (serial fr [(q, fsq); (p, fsp)]).1
  = reverse (serial fr [(p, fsp); (q, fsq)]).1
  /\ registry_after fr [(q, fsq); (p, fsp)]
     = registry_after fr [(p, fsp); (q, fsq)].
Proof.
  intros Hne. unfold registry_after. simpl.
  pose proof (open_local (open fr p fsp).1.2 fr q fsq) as Hq.
  pose proof (open_local (open fr q fsq).1.2 fr p fsp) as Hp.
  pose proof (fun key => open_frame_proj fr p fsp key) as Hframep.
  pose proof (fun key => open_frame_proj fr q fsq key) as Hframeq.
  pose proof (fun key => open_frame_proj (open fr p fsp).1.2 q fsq key)
    as Hframepq.
  pose proof (fun key => open_frame_proj (open fr q fsq).1.2 p fsp key)
    as Hframeqp.
  destruct (open fr p fsp) as [[o1 fr1] io1].
  destruct (open fr q fsq) as [[o2 frq] io2].
  simpl in *.
  destruct Hq as (Hq1 & Hq2 & Hq3);
    [symmetry; apply Hframep; congruence |].
  destruct Hp as (Hp1 & Hp2 & Hp3);
    [symmetry; apply Hframeq; congruence |].
  destruct (open fr1 q fsq) as [[o2' fr2] io2'].
  destruct (open frq p fsp) as [[o1' fr2'] io1'].
  simpl in *. subst. split; [reflexivity |].
  apply registry_ext. intros key.
  destruct (decide (key = filepath.Clean p)) as [->|Hkp].
  - rewrite <- Hp3. rewrite Hframepq by done. reflexivity.
  - destruct (decide (key = filepath.Clean q)) as [->|Hkq].
    + rewrite <- Hq3. rewrite Hframeqp by done. reflexivity.
    + rewrite Hframeqp, Hframepq, Hframeq, Hframep by done. reflexivity.
Qed.

Lemma opens_of_different_paths_commute_witness :
  filepath.Clean "x/../c" <> filepath.Clean "a//b"
  /\ (serial empty_registry
        [("a//b", Samples.one_file); ("x/../c", Samples.no_files)]).1
     = [(Return Samples.hello None, read_through_io "a/b" 3);
        (Return [] (Some (Err "file does not exist")), [EvOpen "c" false])]
  /\ registry_after empty_registry
       [("a//b", Samples.one_file); ("x/../c", Samples.no_files)]
     = registry_after empty_registry
         [("x/../c", Samples.no_files); ("a//b", Samples.one_file)].
Proof.
  split; [discriminate |].
  destruct (opens_of_different_paths_commute empty_registry "x/../c" "a//b"
              Samples.no_files Samples.one_file) as [Houts Hreg];
    [discriminate |].
  split; [exact Houts | exact Hreg].
Defined.

(** Calling [open] again with the same path and filesystem, right after a
    call, returns what the first call returned and leaves the registry as the
    first call left it. *)
Theorem open_twice (fr : registry) (filename : string) (fromFs : Fs) :
  (open (open fr filename fromFs).1.2 filename fromFs).1
  = (open fr filename fromFs).1.
Proof.
  destruct (open fr filename fromFs) as [[out fr'] io] eqn:Hopen.
  apply open_takes_a_path in Hopen. simpl.
  destruct Hopen as [data Hload|v Hload Hv|err Hload Hfs
                    |f part err n Hload Hfs Hread|f data n Hload Hfs Hread].
  - by rewrite (open_hit _ _ _ data).
  - by rewrite (open_hit_panic _ _ _ v).
  - by rewrite (open_miss_open_failed _ _ _ err).
  - by rewrite (open_miss_read_failed _ _ _ f part err n).
  - rewrite (open_hit _ _ _ data); [reflexivity | apply Load_Store].
Qed.

(** ** Read once *)

(** In a serial run of calls of [open], for any paths and any filesystems,
    the file of a key is read to its end and cached by one call at most, and
    by none if the key was cached before the run. *)
Theorem fills_at_most_once (calls : list (string * Fs)) :
  forall (fr : registry) (key : string),
    fills key fr calls <= 1
    /\ (is_Some (Load fr key) -> fills key fr calls = 0).
Proof.
  induction calls as [|[p fs] calls IH]; intros fr key.
  - split; [unfold fills; simpl; lia | reflexivity].
  - unfold fills in *. simpl.
    destruct (open fr p fs) as [[out fr'] io] eqn:Hopen.
    destruct (serial fr' calls) as [outs fr''] eqn:Hserial.
    specialize (IH fr' key). rewrite Hserial in IH. simpl in *.
    destruct IH as [IHle IHzero].
    destruct (cached_by key (p, fs) (out, io)) eqn:Hcached.
    + rewrite filter_cons_True by exact Hcached. simpl.
      apply andb_true_iff in Hcached as [Hkey Hres].
      apply bool_decide_eq_true in Hkey. simpl in Hkey. subst key.
      apply open_takes_a_path in Hopen.
      destruct Hopen as [ | | | |f data n Hload Hfs Hread];
        try discriminate Hres.
      rewrite IHzero by (rewrite Load_Store; by eexists).
      split; [lia |]. rewrite Hload. by intros [v Hv].
    + rewrite filter_cons_False by (simpl; by rewrite Hcached).
      split; [exact IHle |]. intros [v Hv]. apply IHzero.
      exists v. by eapply open_keeps_entries.
Qed.

Lemma fills_at_most_once_witness :
  fills "a/b" empty_registry
    [("a/b", Samples.bad_disk); ("a//b", Samples.one_file);
     ("a/./b", Samples.one_file); ("a/b", Samples.one_file)] = 1
  /\ is_Some (Load Samples.cached "a/b")
  /\ fills "a/b" Samples.cached
       [("a/b", Samples.one_file); ("a/b", Samples.one_file)] = 0.
Proof.
  split; [reflexivity |]. split; [by eexists |].
  apply (fills_at_most_once
           [("a/b", Samples.one_file); ("a/b", Samples.one_file)]
           Samples.cached "a/b").
  by eexists.
Defined.

(** ** What is read *)

Lemma ReadAll_loop_all_ok (r : File) : forall (b : bytes) (calls : nat),
  Forall (fun res => res.2 = None) r ->
  ReadAll_loop r b calls = (b ++ concat r.*1, None, S (calls + length r)).
Proof.
  induction r as [|[chunk err] r IH]; intros b calls Hok.
  - simpl. by rewrite app_nil_r, Nat.add_0_r.
  - apply Forall_cons in Hok as [Herr Hok]. simpl in Herr. subst err.
    simpl. rewrite IH by done. rewrite <- app_assoc.
    do 2 f_equal. lia.
Qed.

Lemma ReadAll_loop_first_error (ok : File) :
  forall (b chunk : bytes) (msg : string) (rest : File) (calls : nat),
    Forall (fun res => res.2 = None) ok ->
    ReadAll_loop (ok ++ (chunk, Some (Err msg)) :: rest) b calls
    = (b ++ concat ok.*1 ++ chunk, Some (Err msg), S (calls + length ok)).
Proof.
  induction ok as [|[chunk' err] ok IH]; intros b chunk msg rest calls Hok.
  - simpl. by rewrite Nat.add_0_r.
  - apply Forall_cons in Hok as [Herr Hok]. simpl in Herr. subst err.
    simpl. rewrite IH by done. rewrite <- !app_assoc.
    do 2 f_equal. lia.
Qed.

(** Where the file is not cached and every [Read] up to the end of the file
    succeeds, [open] returns and caches all the bytes that the calls of [Read]
    delivered, in their order, and has called [Read] once more than there are
    chunks, the last call finding the end of the file. *)
Theorem open_returns_all_chunks (fr : registry) (filename : string)
    (fromFs : Fs) (f : File) :
  Load fr (filepath.Clean filename) = None ->
  Open fromFs (filepath.Clean filename) = inr f ->
  Forall (fun res => res.2 = None) f ->
  open fr filename fromFs
  = (Return (concat f.*1) None,
     Store fr (filepath.Clean filename) (AnyBytes (concat f.*1)),
     read_through_io (filepath.Clean filename) (S (length f))).
Proof.
  intros Hload Hfs Hok.
  apply (open_miss_read fr filename fromFs f); try done.
  unfold ReadAll. by rewrite ReadAll_loop_all_ok.
Qed.

Lemma open_returns_all_chunks_witness :
  Load empty_registry (filepath.Clean "a//b") = None
  /\ Open Samples.one_file (filepath.Clean "a//b")
     = inr [(String.list_byte_of_string "hel", None);
            (String.list_byte_of_string "lo", None)]
  /\ open empty_registry "a//b" Samples.one_file
     = (Return Samples.hello None, Samples.cached, read_through_io "a/b" 3).
Proof.
  split; [reflexivity |]. split; [reflexivity |].
  apply (open_returns_all_chunks empty_registry "a//b" Samples.one_file
           [(String.list_byte_of_string "hel", None);
            (String.list_byte_of_string "lo", None)] eq_refl eq_refl).
  by repeat constructor.
Defined.

(** Where the file is not cached and a [Read] fails with an error other
    than the end of the file, after some calls of [Read] that succeeded,
    [open] reads no further, returns this error with empty content and caches
    nothing: the bytes read up to there are dropped. *)
Theorem open_stops_at_first_read_error (fr : registry) (filename : string)
    (fromFs : Fs) (ok : File) (chunk : bytes) (msg : string) (rest : File) :
  Load fr (filepath.Clean filename) = None ->
  Open fromFs (filepath.Clean filename)
  = inr (ok ++ (chunk, Some (Err msg)) :: rest) ->
  Forall (fun res => res.2 = None) ok ->
  open fr filename fromFs
  = (Return [] (Some (Err msg)), fr,
     read_through_io (filepath.Clean filename) (S (length ok))).
Proof.
  intros Hload Hfs Hok.
  apply (open_miss_read_failed fr filename fromFs
           (ok ++ (chunk, Some (Err msg)) :: rest)
           (concat ok.*1 ++ chunk)); try done.
  unfold ReadAll. by rewrite ReadAll_loop_first_error.
Qed.

Lemma open_stops_at_first_read_error_witness :
  Load empty_registry (filepath.Clean "a/b") = None
  /\ Open Samples.bad_disk (filepath.Clean "a/b")
     = inr ([(String.list_byte_of_string "hel", None)]
              ++ ([], Some (Err "input/output error")) :: [])
  /\ open empty_registry "a/b" Samples.bad_disk
     = (Return [] (Some (Err "input/output error")), empty_registry,
        read_through_io "a/b" 2).
Proof.
  split; [reflexivity |]. split; [reflexivity |].
  apply (open_stops_at_first_read_error empty_registry "a/b"
           Samples.bad_disk [(String.list_byte_of_string "hel", None)]
           [] "input/output error" [] eq_refl eq_refl).
  by repeat constructor.
Defined.

(** ** Races and serial calls *)

Section QuietRace.
Variables (fr : registry) (filename : string) (fromFs : Fs).

(** [open] stores nothing on [fr]. *)
Hypothesis Hquiet : (open fr filename fromFs).1.2 = fr.

Lemma quiet_step t :
  settles_as fr (filepath.Clean filename) (open fr filename fromFs).1.1 t ->
  (thread_step filename fromFs fr t).1 = fr
  /\ settles_as fr (filepath.Clean filename) (open fr filename fromFs).1.1
       (thread_step filename fromFs fr t).2.
Proof.
  revert Hquiet. unfold open.
  destruct t as [| |data io|out io]; cbn [thread_step settles_as].
  - destruct (Load fr (filepath.Clean filename)) as [[]|] eqn:Hload;
      simpl; intros _ _; try done.
  - intros Hq Hload. rewrite Hload in *.
    destruct (Open fromFs (filepath.Clean filename)) as [err|f];
      simpl; [done |].
    destruct (ReadAll f) as [[data [err|]] n]; simpl in *; [done |].
    pose proof (Load_Store fr (filepath.Clean filename) (AnyBytes data))
      as Hstored.
    rewrite Hq, Hload in Hstored. discriminate.
  - by intros _ [].
  - by intros _ ->.
Qed.

Lemma quiet_run schedule : forall m,
  m.1 = fr ->
  Forall (settles_as fr (filepath.Clean filename)
            (open fr filename fromFs).1.1) m.2 ->
  (run filename fromFs m schedule).1 = fr
  /\ Forall (settles_as fr (filepath.Clean filename)
               (open fr filename fromFs).1.1)
       (run filename fromFs m schedule).2.
Proof.
  induction schedule as [|i schedule IH]; intros [r ts] Hfr Hts;
    [by split |].
  simpl in Hfr. subst r. simpl run. apply IH.
  - unfold machine_step. simpl.
    destruct (ts !! i) as [t|] eqn:Hlookup; [|reflexivity].
    pose proof (quiet_step t (Forall_lookup_1 _ _ _ _ Hts Hlookup))
      as [Hreg _].
    by destruct (thread_step filename fromFs fr t).
  - unfold machine_step. simpl.
    destruct (ts !! i) as [t|] eqn:Hlookup; [|exact Hts].
    pose proof (quiet_step t (Forall_lookup_1 _ _ _ _ Hts Hlookup))
      as [_ Ht].
    destruct (thread_step filename fromFs fr t). simpl in *.
    by apply Forall_insert.
Qed.
End QuietRace.

(** A race of goroutines that call [open] with the same path and filesystem
    ends like a single call: under every schedule, a goroutine that has
    returned (or panicked) ended as the single call of [open] on the initial
    registry ends, and the registry is then what that call leaves, whether
    the path is cached, cannot be opened, cannot be read, or is read and
    stored. *)
Theorem race_agrees_with_open (fr : registry) (filename : string)
    (fromFs : Fs) (n : nat) (schedule : list nat) (i : nat) (out : outcome)
    (io : list event) :
  (run filename fromFs (start fr n) schedule).2 !! i = Some (Done out io) ->
  out = (open fr filename fromFs).1.1
  /\ (run filename fromFs (start fr n) schedule).1
     = (open fr filename fromFs).1.2.
Proof.
  intros Hdone.
  destruct (open fr filename fromFs) as [[out0 fr0] io0] eqn:Hopen.
  pose proof (open_takes_a_path _ _ _ _ _ _ Hopen) as Hpath.
  assert (Hstart : Forall (settles_as fr (filepath.Clean filename)
                             (open fr filename fromFs).1.1)
                     (start fr n).2).
  { apply Forall_forall. by intros t [-> _]%elem_of_replicate. }
  assert (Hquiet : fr0 = fr ->
    out = out0 /\ (run filename fromFs (start fr n) schedule).1 = fr0).
  { intros ->.
    destruct (quiet_run fr filename fromFs)
      with (schedule := schedule) (m := start fr n) as [Hreg Hts];
      [by rewrite Hopen | reflexivity | exact Hstart |].
    pose proof (Forall_lookup_1 _ _ _ _ Hts Hdone) as Hout.
    simpl in Hout. rewrite Hopen in Hout. by split. }
  simpl.
  destruct Hpath as [ | | | |f data calls Hload Hfs Hread]; try by apply Hquiet.
  pose proof (race_inv_run fr filename fromFs f data calls
                Hload Hfs Hread schedule (start fr n)
                (race_inv_start fr filename data n)) as [Hagree Hreg].
  pose proof (Forall_lookup_1 _ _ _ _ Hagree Hdone) as Hout.
  split; [exact Hout |].
  destruct Hreg as [[_ Hnone]|Hreg]; [|exact Hreg].
  pose proof (Forall_lookup_1 _ _ _ _ Hnone Hdone). discriminate.
Qed.

Lemma race_agrees_with_open_witness :
  (run "a/b" Samples.bad_disk (start Samples.cached 2) [1; 0; 0]).2 !! 1
  = Some (Done (Return Samples.hello None) [])
  /\ Return Samples.hello None
     = (open Samples.cached "a/b" Samples.bad_disk).1.1
  /\ (run "a/b" Samples.bad_disk (start Samples.cached 2) [1; 0; 0]).1
     = (open Samples.cached "a/b" Samples.bad_disk).1.2.
Proof.
  split; [reflexivity |].
  exact (race_agrees_with_open Samples.cached "a/b" Samples.bad_disk 2
           [1; 0; 0] 1 (Return Samples.hello None) [] eq_refl).
Defined.

(** * Properties of [k6 init] *)

(** The five paths through [run]. *)
Lemma run_cases (c : cmd.initCmd) (args : list string) :
  let target := cmd.target_of args in
  let fs := cmd.FS (cmd.gs c) in
  let data := String.list_byte_of_string cmd.defaultNewScript in
  (exists err,
      (cmd.Exists fs target).2 = Some err
      /\ cmd.run c args = (Some err, [cmd.CallExists target]))
  \/ (cmd.Exists fs target = (true, None)
      /\ cmd.overwriteFiles c = false
      /\ cmd.run c args
         = (None, [cmd.CallExists target;
                   cmd.LogErrorf (target +:+ " already exists")]))
  \/ ((cmd.Exists fs target).2 = None
      /\ ((cmd.Exists fs target).1 = false \/ cmd.overwriteFiles c = true)
      /\ ((exists err,
              cmd.Create fs target = Some err
              /\ cmd.run c args
                 = (Some err, [cmd.CallExists target;
                               cmd.CallCreate target false]))
          \/ (exists err,
                 cmd.Create fs target = None
                 /\ cmd.Write fs target data = Some err
                 /\ cmd.run c args
                    = (Some err, [cmd.CallExists target;
                                  cmd.CallCreate target true;
                                  cmd.CallWrite target data;
                                  cmd.CallClose target]))
          \/ (cmd.Create fs target = None
              /\ cmd.Write fs target data = None
              /\ cmd.run c args
                 = (None, [cmd.CallExists target;
                           cmd.CallCreate target true;
                           cmd.CallWrite target data;
                           cmd.CallPrintToStdout
                             (cmd.initialized_msg target);
                           cmd.CallPrintToStdout
                             (cmd.execute_msg (cmd.BinaryName (cmd.gs c))
                                target);
                           cmd.CallClose target])))).
Proof.
  intros target fs data. unfold cmd.run. fold target fs data.
  destruct (cmd.Exists fs target) as [fileExists [err|]].
  - left. by exists err.
  - right.
    destruct fileExists, (cmd.overwriteFiles c); simpl;
      try (left; by repeat split);
      right; (split; [reflexivity |]); (split; [by auto |]);
      (destruct (cmd.Create fs target) as [err|];
       [left; by exists err |]);
      right; (destruct (cmd.Write fs target data) as [err|];
              [left; by exists err | right; by repeat split]).
Qed.

(** The file handle: on every path through [run], a file that [Create] gave
    is closed before [run] returns, after everything else, and [Close] is
    called on nothing else. *)
Theorem run_closes_created_file (c : cmd.initCmd) (args : list string) :
  cmd.left_open (cmd.run c args).2 = []
  /\ (forall path,
         cmd.CallClose path ∈ (cmd.run c args).2 ->
         cmd.CallCreate path true ∈ (cmd.run c args).2
         /\ last (cmd.run c args).2 = Some (cmd.CallClose path)).
Proof.
  destruct (run_cases c args)
    as [(err & _ & ->)
       |[(_ & _ & ->)
        |(_ & _ & [(err & _ & ->)
                  |[(err & _ & _ & ->)|(_ & _ & ->)]])]]; simpl.
  - split; [reflexivity |]. intros path Hin. in_list.
  - split; [reflexivity |]. intros path Hin. in_list.
  - split; [reflexivity |]. intros path Hin. in_list.
  - rewrite bool_decide_eq_true_2 by in_list.
    split; [reflexivity |]. intros path Hin.
    assert (path = cmd.target_of args) as -> by in_list.
    split; [in_list | reflexivity].
  - rewrite bool_decide_eq_true_2 by in_list.
    split; [reflexivity |]. intros path Hin.
    assert (path = cmd.target_of args) as -> by in_list.
    split; [in_list | reflexivity].
Qed.

Lemma run_closes_created_file_witness :
  cmd.CallClose "new.js"
  ∈ (cmd.run (cmd.mkInitCmd (cmd.mkGlobalState cmd.full_disk "k6") false)
       ["new.js"]).2
  /\ last (cmd.run (cmd.mkInitCmd (cmd.mkGlobalState cmd.full_disk "k6")
                      false) ["new.js"]).2
     = Some (cmd.CallClose "new.js").
Proof.
  assert (Hin : cmd.CallClose "new.js"
                ∈ (cmd.run (cmd.mkInitCmd
                              (cmd.mkGlobalState cmd.full_disk "k6") false)
                     ["new.js"]).2).
  { simpl. rewrite !elem_of_cons. auto 10. }
  split; [exact Hin |].
  destruct (run_closes_created_file
              (cmd.mkInitCmd (cmd.mkGlobalState cmd.full_disk "k6") false)
              ["new.js"]) as [_ Hclose].
  exact (proj2 (Hclose "new.js" Hin)).
Defined.

(** No clobbering: [run] calls [Create] if and only if the probe for the
    target gave no error and either found no file or [--force] is set; and
    it creates nothing but the target. *)
Theorem run_creates_iff_allowed (c : cmd.initCmd) (args : list string) :
  ((exists ok, cmd.CallCreate (cmd.target_of args) ok ∈ (cmd.run c args).2)
   <-> (cmd.Exists (cmd.FS (cmd.gs c)) (cmd.target_of args)).2 = None
       /\ ((cmd.Exists (cmd.FS (cmd.gs c)) (cmd.target_of args)).1 = false
           \/ cmd.overwriteFiles c = true))
  /\ (forall path ok,
         cmd.CallCreate path ok ∈ (cmd.run c args).2 ->
         path = cmd.target_of args).
Proof.
  destruct (run_cases c args)
    as [(err & Herr & ->)
       |[(Hex & Hforce & ->)
        |(Hnil & Hallowed & [(err & _ & ->)
                  |[(err & _ & _ & ->)|(_ & _ & ->)]])]]; simpl.
  - split; [|in_list]. split; [in_list | intros [Hnil _]; congruence].
  - split; [|in_list]. split; [in_list |].
    rewrite Hex. simpl. intros [_ [?|?]]; congruence.
  - split; [|in_list]. split; [done |]. intros _. exists false. in_list.
  - split; [|in_list]. split; [done |]. intros _. exists true. in_list.
  - split; [|in_list]. split; [done |]. intros _. exists true. in_list.
Qed.

Lemma run_creates_iff_allowed_witness :
  (exists ok, cmd.CallCreate "old.js" ok
              ∈ (cmd.run (cmd.sample_cmd true) ["old.js"]).2)
  /\ ~ (exists ok, cmd.CallCreate "old.js" ok
                   ∈ (cmd.run (cmd.sample_cmd false) ["old.js"]).2).
Proof.
  split.
  - apply (run_creates_iff_allowed (cmd.sample_cmd true) ["old.js"]).
    split; [reflexivity | by right].
  - intros Hcreate.
    apply (run_creates_iff_allowed (cmd.sample_cmd false) ["old.js"])
      in Hcreate as [_ [Hexists|Hforce]]; discriminate.
Defined.



(** Errors: where [run] returns an error, it is the error that the probe,
    [Create] or [Write] gave for the target, with nothing added; [run] has
    then called neither [printToStdout] nor the logger, and [Create] and
    [Write] are only reached when the calls before them succeeded. *)
Theorem run_error_passthrough (c : cmd.initCmd) (args : list string)
    (err : error) :
  (cmd.run c args).1 = Some err ->
  cmd.print_calls (cmd.run c args).2 = []
  /\ (forall msg, cmd.LogErrorf msg ∉ (cmd.run c args).2)
  /\ ((cmd.Exists (cmd.FS (cmd.gs c)) (cmd.target_of args)).2 = Some err
      \/ ((cmd.Exists (cmd.FS (cmd.gs c)) (cmd.target_of args)).2 = None
          /\ cmd.Create (cmd.FS (cmd.gs c)) (cmd.target_of args) = Some err)
      \/ ((cmd.Exists (cmd.FS (cmd.gs c)) (cmd.target_of args)).2 = None
          /\ cmd.Create (cmd.FS (cmd.gs c)) (cmd.target_of args) = None
          /\ cmd.Write (cmd.FS (cmd.gs c)) (cmd.target_of args)
               (String.list_byte_of_string cmd.defaultNewScript)
             = Some err)).
Proof.
  destruct (run_cases c args)
    as [(err' & Herr & ->)
       |[(Hex & Hforce & ->)
        |(Hnil & Hallowed & [(err' & Hcreate & ->)
                  |[(err' & Hcreate & Hwrite & ->)|(_ & _ & ->)]])]]; simpl;
    try discriminate; intros [= ->].
  - split; [reflexivity |]. split; [in_list | by left].
  - split; [reflexivity |]. split; [in_list | right; by left].
  - split; [reflexivity |]. split; [in_list | right; by right].
Qed.

Lemma run_error_passthrough_witness :
  (cmd.run (cmd.mkInitCmd (cmd.mkGlobalState cmd.full_disk "k6") false)
     ["new.js"]).1 = Some (Err "no space left on device")
  /\ cmd.print_calls
       (cmd.run (cmd.mkInitCmd (cmd.mkGlobalState cmd.full_disk "k6") false)
          ["new.js"]).2 = [].
Proof.
  split; [reflexivity |].
  apply (run_error_passthrough
           (cmd.mkInitCmd (cmd.mkGlobalState cmd.full_disk "k6") false)
           ["new.js"] (Err "no space left on device") eq_refl).
Defined.

(** One target: every call of [run] on the filesystem is about the target,
    which is the first argument or else [script.js]; the first call is the
    probe for the target; what is written is the default script, whatever
    the arguments are; and arguments after the first change nothing. *)
Theorem run_one_target (c : cmd.initCmd) (args : list string) :
  Forall (fun e => cmd.call_path e = None
                   \/ cmd.call_path e = Some (cmd.target_of args))
    (cmd.run c args).2
  /\ head (cmd.run c args).2 = Some (cmd.CallExists (cmd.target_of args))
  /\ (forall path data,
         cmd.CallWrite path data ∈ (cmd.run c args).2 ->
         data = String.list_byte_of_string cmd.defaultNewScript)
  /\ cmd.run c args = cmd.run c [cmd.target_of args].
Proof.
  split; [|split; [|split]].
  - destruct (run_cases c args)
      as [(err & _ & ->)
         |[(_ & _ & ->)
          |(_ & _ & [(err & _ & ->)
                    |[(err & _ & _ & ->)|(_ & _ & ->)]])]]; simpl;
      repeat (apply Forall_cons; split; [simpl; auto |]);
      by apply Forall_nil.
  - destruct (run_cases c args)
      as [(err & _ & ->)
         |[(_ & _ & ->)
          |(_ & _ & [(err & _ & ->)
                    |[(err & _ & _ & ->)|(_ & _ & ->)]])]]; reflexivity.
  - destruct (run_cases c args)
      as [(err & _ & ->)
         |[(_ & _ & ->)
          |(_ & _ & [(err & _ & ->)
                    |[(err & _ & _ & ->)|(_ & _ & ->)]])]]; simpl;
      intros path data Hin; in_list.
  - reflexivity.
Qed.

Lemma run_one_target_witness :
  cmd.CallWrite "a.js" (String.list_byte_of_string cmd.defaultNewScript)
  ∈ (cmd.run (cmd.sample_cmd false) ["a.js"; "b.js"]).2
  /\ cmd.run (cmd.sample_cmd false) ["a.js"; "b.js"]
     = cmd.run (cmd.sample_cmd false) ["a.js"].
Proof.
  split.
  - simpl. rewrite !elem_of_cons. auto 10.
  - apply (run_one_target (cmd.sample_cmd false) ["a.js"; "b.js"]).
Defined.
